(** * proxy-backend: the link-rewriting and sanitising proxy of [server.ts]

    A shallow embedding of [src/proxy-backend/src/server.ts].  The functions
    of the file ([isAllowedHost], [resolveAbsoluteUrl], [rewriteAttr],
    [rewriteHtml] and the [/proxy_backend] handler) are transcribed as Rocq
    functions.  What the file imports (the WHATWG [URL] constructor, JSDOM,
    DOMPurify, node-fetch) is not part of the repository: those collaborators
    are the fields of a [Platform] record over which every definition and
    theorem is generic.  The ECMAScript built-ins the file calls
    ([encodeURIComponent], [String.prototype.split], [includes], the regular
    expression of [rewriteAttr]) are written out after ECMA-262.

    The [/search] endpoint of the same file, the [/render] endpoint of
    [src/render-service/src/render.ts] and the handlers of the client
    component ([openUrl], [go], [onResultClick], [goBack], [goForward])
    follow in the same way: the search provider and puppeteer are records of
    what they answer, and the state of the component is passed from handler
    to handler. *)

From Stdlib Require Import ZArith List String Ascii Lia Bool Floats.
From stdpp Require Import base tactics option list.

Local Open Scope Z_scope.

(** ** ECMAScript strings: sequences of 16-bit code units *)

Module JS.

(** A string is the list of its code units, each an integer. *)
Abbreviation code_unit := Z (only parsing).
Abbreviation jsstring := (list Z) (only parsing).

(** A code unit is a 16-bit value. *)
Definition is_code_unit (c : Z) : Prop := 0 <= c < 65536.

(** A string literal of the source, code unit by code unit. *)
Fixpoint js (s : string) : jsstring :=
  match s with
  | EmptyString => []
  | String a s' => Z.of_N (N_of_ascii a) :: js s'
  end.

(** ToBoolean on a string: only the empty string is falsy. *)
Definition truthy (s : jsstring) : bool :=
  match s with [] => false | _ :: _ => true end.

(** [a || b] on strings that may be null. *)
Definition or_else (o : option jsstring) (d : jsstring) : jsstring :=
  match o with
  | Some s => if truthy s then s else d
  | None => d
  end.

Definition is_lead_surrogate (c : Z) : bool := (55296 <=? c) && (c <=? 56319).
Definition is_trail_surrogate (c : Z) : bool := (56320 <=? c) && (c <=? 57343).

(** UTF16SurrogatePairToCodePoint and UTF16EncodeCodePoint (ECMA-262 11.1). *)
Definition surrogate_pair_to_code_point (lead trail : Z) : Z :=
  (lead - 55296) * 1024 + (trail - 56320) + 65536.

Definition utf16_encode_code_point (cp : Z) : jsstring :=
  if cp <=? 65535 then [cp]
  else [(cp - 65536) / 1024 + 55296; (cp - 65536) mod 1024 + 56320].

(** A string without unpaired surrogates (a sequence of Unicode scalar
    values), each element a code unit. *)
Fixpoint well_formed (s : jsstring) : bool :=
  match s with
  | [] => true
  | c :: rest =>
      (0 <=? c) && (c <? 65536) &&
      if is_lead_surrogate c then
        match rest with
        | d :: rest' => is_trail_surrogate d && well_formed rest'
        | [] => false
        end
      else negb (is_trail_surrogate c) && well_formed rest
  end.

(** [String.prototype.startsWith]. *)
Fixpoint startsWith (s prefix : jsstring) : bool :=
  match prefix, s with
  | [], _ => true
  | p :: prefix', c :: s' => (c =? p) && startsWith s' prefix'
  | _ :: _, [] => false
  end.

(** [String.prototype.includes]: some suffix of [s] starts with [needle]. *)
Fixpoint includes (s needle : jsstring) : bool :=
  startsWith s needle ||
  match s with
  | [] => false
  | _ :: s' => includes s' needle
  end.

(** [String.prototype.split] with a one-code-unit separator: the pieces
    between the separators, empty pieces included (the empty string splits
    into one empty piece). *)
Fixpoint split (sep : Z) (s : jsstring) : list jsstring :=
  match s with
  | [] => [[]]
  | c :: rest =>
      if c =? sep then [] :: split sep rest
      else match split sep rest with
           | piece :: pieces => (c :: piece) :: pieces
           | [] => [[c]]
           end
  end.

(** The canonicalisation of a regular expression with the [i] flag and
    without [u]: a code unit is compared by its upper case, and a code unit
    of 128 or more never folds to an ASCII one.  On ASCII patterns this is
    the comparison of the lower-cased ASCII letters. *)
Definition ascii_lower (c : Z) : Z :=
  if (65 <=? c) && (c <=? 90) then c + 32 else c.

Fixpoint startsWith_ci (s prefix : jsstring) : bool :=
  match prefix, s with
  | [], _ => true
  | p :: prefix', c :: s' =>
      (ascii_lower c =? ascii_lower p) && startsWith_ci s' prefix'
  | _ :: _, [] => false
  end.

Fixpoint eqb_ci (s t : jsstring) : bool :=
  match s, t with
  | [], [] => true
  | c :: s', d :: t' => (ascii_lower c =? ascii_lower d) && eqb_ci s' t'
  | _, _ => false
  end.

(** The class [\s] of a regular expression: WhiteSpace and LineTerminator
    (ECMA-262 22.2.2.9): TAB, LF, VT, FF, CR, SP, NBSP, the Unicode space
    separators, LS, PS and the byte order mark. *)
Definition is_regexp_space (c : Z) : bool :=
  ((9 <=? c) && (c <=? 13)) || (c =? 32) || (c =? 160) || (c =? 5760) ||
  ((8192 <=? c) && (c <=? 8202)) || (c =? 8232) || (c =? 8233) ||
  (c =? 8239) || (c =? 8287) || (c =? 12288) || (c =? 65279).

(** The longest match of [\s*] at the start of [s], dropped. *)
Fixpoint skip_space (s : jsstring) : jsstring :=
  match s with
  | c :: rest => if is_regexp_space c then skip_space rest else s
  | [] => []
  end.

End JS.

Export JS.

(** ** Exceptions *)

Inductive exn :=
| TypeError (message : jsstring)
| URIError (message : jsstring)
| FetchError (message : jsstring).

Definition exn_message (e : exn) : jsstring :=
  match e with
  | TypeError m | URIError m | FetchError m => m
  end.

(** A computation that returns a value or throws. *)
Inductive result (A : Type) :=
| Ok (a : A)
| Throw (e : exn).
Arguments Ok {A} a.
Arguments Throw {A} e.

#[export] Instance result_ret : MRet result := @Ok.
#[export] Instance result_bind : MBind result :=
  fun A B f m => match m with Ok a => f a | Throw e => Throw e end.
#[export] Instance result_fmap : FMap result :=
  fun A B f m => match m with Ok a => Ok (f a) | Throw e => Throw e end.

(** [try { m } catch (e) { h e }]. *)
Definition try_catch {A} (m : result A) (h : exn -> result A) : result A :=
  match m with Ok a => Ok a | Throw e => h e end.

(** ** [encodeURIComponent] and [decodeURIComponent] (ECMA-262 19.2.6) *)

Module URI.

Definition URI_malformed : exn := URIError (js "URI malformed").

(** The characters [encodeURIComponent] leaves alone: the ASCII word
    characters and the marks [- . ! ~ * ' ( )]. *)
Definition is_unescaped (c : Z) : bool :=
  ((65 <=? c) && (c <=? 90)) || ((97 <=? c) && (c <=? 122)) ||
  ((48 <=? c) && (c <=? 57)) || (c =? 95) ||
  (c =? 45) || (c =? 46) || (c =? 33) || (c =? 126) || (c =? 42) ||
  (c =? 39) || (c =? 40) || (c =? 41).

(** The UTF-8 encoding of a code point, as octets. *)
Definition utf8_encode (cp : Z) : list Z :=
  if cp <? 128 then [cp]
  else if cp <? 2048 then
    [Z.lor 192 (Z.shiftr cp 6); Z.lor 128 (Z.land cp 63)]
  else if cp <? 65536 then
    [Z.lor 224 (Z.shiftr cp 12);
     Z.lor 128 (Z.land (Z.shiftr cp 6) 63);
     Z.lor 128 (Z.land cp 63)]
  else
    [Z.lor 240 (Z.shiftr cp 18);
     Z.lor 128 (Z.land (Z.shiftr cp 12) 63);
     Z.lor 128 (Z.land (Z.shiftr cp 6) 63);
     Z.lor 128 (Z.land cp 63)].

(** An upper-case hexadecimal digit. *)
Definition hex_digit (d : Z) : Z := if d <? 10 then 48 + d else 55 + d.

(** ["%" + hex], the octet padded to two digits. *)
Definition pct_escape (octet : Z) : jsstring :=
  [37; hex_digit (octet / 16); hex_digit (octet mod 16)].

Definition pct_escapes (octets : list Z) : jsstring :=
  concat (map pct_escape octets).

(** Encode(string, extraUnescaped) with no extra unescaped characters.  The
    two-unit case is CodePointAt on a surrogate pair; a surrogate without
    its partner throws. *)
Fixpoint encode (s : jsstring) : result jsstring :=
  match s with
  | [] => Ok []
  | c :: rest =>
      if is_unescaped c then cons c <$> encode rest
      else if is_lead_surrogate c then
        match rest with
        | d :: rest' =>
            if is_trail_surrogate d then
              app (pct_escapes (utf8_encode (surrogate_pair_to_code_point c d)))
                <$> encode rest'
            else Throw URI_malformed
        | [] => Throw URI_malformed
        end
      else if is_trail_surrogate c then Throw URI_malformed
      else app (pct_escapes (utf8_encode c)) <$> encode rest
  end.

Definition encodeURIComponent (s : jsstring) : result jsstring := encode s.

(** The value of a hexadecimal digit of either case. *)
Definition hex_value (c : Z) : option Z :=
  if (48 <=? c) && (c <=? 57) then Some (c - 48)
  else if (65 <=? c) && (c <=? 70) then Some (c - 55)
  else if (97 <=? c) && (c <=? 102) then Some (c - 87)
  else None.

Definition ParseHexOctet (h l : Z) : option Z :=
  match hex_value h, hex_value l with
  | Some a, Some b => Some (16 * a + b)
  | _, _ => None
  end.

(** The number of leading 1 bits of an octet (5 stands for "more than 4"). *)
Definition leading_ones (B : Z) : nat :=
  if negb (Z.testbit B 7) then 0
  else if negb (Z.testbit B 6) then 1
  else if negb (Z.testbit B 5) then 2
  else if negb (Z.testbit B 4) then 3
  else if negb (Z.testbit B 3) then 4
  else 5.

(** The same count read off the octet's value. *)
Definition leading_ones_cmp (B : Z) : nat :=
  if B <? 128 then 0 else if B <? 192 then 1 else if B <? 224 then 2
  else if B <? 240 then 3 else if B <? 248 then 4 else 5.

Definition is_continuation (b : Z) : bool := Z.land b 192 =? 128.

(** The code point of a well-formed UTF-8 sequence of two to four octets:
    continuation octets are [10xxxxxx], and over-long forms, surrogates and
    values past U+10FFFF are refused. *)
Definition utf8_decode (octets : list Z) : option Z :=
  match octets with
  | [b0; b1] =>
      let v := Z.lor (Z.shiftl (Z.land b0 31) 6) (Z.land b1 63) in
      if is_continuation b1 && (128 <=? v) then Some v else None
  | [b0; b1; b2] =>
      let v := Z.lor (Z.shiftl (Z.land b0 15) 12)
                 (Z.lor (Z.shiftl (Z.land b1 63) 6) (Z.land b2 63)) in
      if is_continuation b1 && is_continuation b2 && (2048 <=? v) &&
         negb ((55296 <=? v) && (v <=? 57343))
      then Some v else None
  | [b0; b1; b2; b3] =>
      let v := Z.lor (Z.shiftl (Z.land b0 7) 18)
                 (Z.lor (Z.shiftl (Z.land b1 63) 12)
                    (Z.lor (Z.shiftl (Z.land b2 63) 6) (Z.land b3 63))) in
      if is_continuation b1 && is_continuation b2 && is_continuation b3 &&
         (65536 <=? v) && (v <=? 1114111)
      then Some v else None
  | _ => None
  end.

(** One continuation escape ["%XX"] of a multi-octet sequence. *)
Definition continuation_octets (escapes : list (Z * Z * Z)) : option (list Z) :=
  mapM (fun '(p, h, l) => if p =? 37 then ParseHexOctet h l else None) escapes.

(** The end of step 4.c.viii of Decode: the octets are checked and turned
    into UTF-16, and the rest of the string follows. *)
Definition decode_sequence (B : Z) (escapes : list (Z * Z * Z))
    (rest : result jsstring) : result jsstring :=
  match continuation_octets escapes with
  | None => Throw URI_malformed
  | Some octets =>
      match utf8_decode (B :: octets) with
      | None => Throw URI_malformed
      | Some V => app (utf16_encode_code_point V) <$> rest
      end
  end.

(** Decode(string, preserveEscapeSet) with an empty preserve set. *)
Fixpoint decode (s : jsstring) : result jsstring :=
  match s with
  | [] => Ok []
  | c :: rest =>
      if negb (c =? 37) then cons c <$> decode rest
      else
        match rest with
        | h :: l :: rest1 =>
            match ParseHexOctet h l with
            | None => Throw URI_malformed
            | Some B =>
                match leading_ones B with
                | 0%nat => cons B <$> decode rest1
                | 2%nat =>
                    match rest1 with
                    | p1 :: h1 :: l1 :: rest2 =>
                        decode_sequence B [(p1, h1, l1)] (decode rest2)
                    | _ => Throw URI_malformed
                    end
                | 3%nat =>
                    match rest1 with
                    | p1 :: h1 :: l1 :: p2 :: h2 :: l2 :: rest3 =>
                        decode_sequence B [(p1, h1, l1); (p2, h2, l2)]
                          (decode rest3)
                    | _ => Throw URI_malformed
                    end
                | 4%nat =>
                    match rest1 with
                    | p1 :: h1 :: l1 :: p2 :: h2 :: l2 :: p3 :: h3 :: l3 :: rest4 =>
                        decode_sequence B
                          [(p1, h1, l1); (p2, h2, l2); (p3, h3, l3)]
                          (decode rest4)
                    | _ => Throw URI_malformed
                    end
                | _ => Throw URI_malformed
                end
            end
        | _ => Throw URI_malformed
        end
  end.

Definition decodeURIComponent (s : jsstring) : result jsstring := decode s.

(** The code units [encodeURIComponent] can write: the unescaped characters
    and the percent sign. *)
Definition is_query_safe (c : Z) : bool := is_unescaped c || (c =? 37).

(** The code units that delimit the parts of a query string. *)
Definition query_delimiters : jsstring := js "&=#+;?".

End URI.

Export URI.

(** ** The document tree the rewriter walks *)

Module DOM.

#[local] Set Warnings "-register-all".

(** An element's own data: its local name and its attributes in source
    order, each a qualified name and a value. *)
Record element := mkElement {
  localName : jsstring;
  attributes : list (jsstring * jsstring)
}.

(** A node of the document, with its children.  What the markup holds
    between the tags of a [template] element the parser does not make
    children of the element: it goes into the template contents, a fragment
    of its own outside the tree.  [Template el content] is such an element,
    which has no children, with its contents; the walks below treat the
    element itself as they treat every other. *)
Inductive node :=
| Element (el : element) (childNodes : list node)
| Template (el : element) (content : list node)
| Text (data : jsstring)
| Comment (data : jsstring).

(** What a document holds beside its root element. *)
Inductive misc :=
| DocumentType (name : jsstring)
| OuterComment (data : jsstring).

(** A parsed HTML document: the HTML parser always builds one [html] root
    element, so the record holds that element's attributes and children. *)
Record document := mkDocument {
  doc_prolog : list misc;
  root_attributes : list (jsstring * jsstring);
  root_childNodes : list node;
  doc_epilog : list misc
}.

Definition documentElement (doc : document) : node :=
  Element (mkElement (js "html") (root_attributes doc)) (root_childNodes doc).

Fixpoint lookup_attribute (attrs : list (jsstring * jsstring)) (name : jsstring)
    : option jsstring :=
  match attrs with
  | [] => None
  | (n, v) :: rest =>
      if bool_decide (n = name) then Some v else lookup_attribute rest name
  end.

Fixpoint update_attribute (attrs : list (jsstring * jsstring))
    (name value : jsstring) : list (jsstring * jsstring) :=
  match attrs with
  | [] => [(name, value)]
  | (n, v) :: rest =>
      if bool_decide (n = name) then (n, value) :: rest
      else (n, v) :: update_attribute rest name value
  end.

(** [el.getAttribute(name)]: the value of the first attribute of that name,
    or null. *)
Definition getAttribute (el : element) (name : jsstring) : option jsstring :=
  lookup_attribute (attributes el) name.

(** [el.setAttribute(name, value)]: the first attribute of that name gets
    the value; without one, the attribute is appended. *)
Definition setAttribute (el : element) (name value : jsstring) : element :=
  mkElement (localName el) (update_attribute (attributes el) name value).

(** The two selector shapes of the source: [tag[attr]] and
    [tag[attr="value"]]. *)
Inductive selector :=
| HasAttribute (tag attr : jsstring)
| AttributeIs (tag attr value : jsstring).

(** The attributes whose values a selector compares without regard to ASCII
    case in an HTML document (HTML Standard, "Case-sensitivity of
    selectors"). *)
Definition case_insensitive_attributes : list jsstring :=
  map js
    ["accept"; "accept-charset"; "align"; "alink"; "axis"; "bgcolor";
     "charset"; "checked"; "clear"; "codetype"; "color"; "compact";
     "declare"; "defer"; "dir"; "direction"; "disabled"; "enctype"; "face";
     "frame"; "hreflang"; "http-equiv"; "lang"; "language"; "link"; "media";
     "method"; "multiple"; "nohref"; "noresize"; "noshade"; "nowrap";
     "readonly"; "rel"; "rev"; "rules"; "scope"; "scrolling"; "selected";
     "shape"; "target"; "text"; "type"; "valign"; "valuetype"; "vlink"]%string.

Definition attribute_value_matches (attr actual expected : jsstring) : bool :=
  if bool_decide (attr ∈ case_insensitive_attributes)
  then eqb_ci actual expected
  else bool_decide (actual = expected).

Definition element_matches (sel : selector) (el : element) : bool :=
  match sel with
  | HasAttribute tag attr =>
      bool_decide (localName el = tag) &&
      match getAttribute el attr with Some _ => true | None => false end
  | AttributeIs tag attr value =>
      bool_decide (localName el = tag) &&
      match getAttribute el attr with
      | Some v => attribute_value_matches attr v value
      | None => false
      end
  end.

Definition matches (sel : selector) (n : node) : bool :=
  match n with
  | Element el _ | Template el _ => element_matches sel el
  | _ => false
  end.


(** The elements of a tree, in tree order. *)
Fixpoint elements (n : node) : list element :=
  match n with
  | Element el children => el :: flat_map elements children
  | Template el _ => [el]
  | _ => []
  end.



Section Traversals.
Context {A B : Type} (f : A -> result B).

(** [forEach] over a list whose callback may throw: the callback's results,
    unless one of the calls threw. *)
Definition forEach : list A -> result (list B) :=
  fix go (l : list A) : result (list B) :=
    match l with
    | [] => Ok []
    | x :: l' => y ← f x; ys ← go l'; Ok (y :: ys)
    end.

End Traversals.

(** A walk over the elements of a tree in tree order, each handed to a
    callback that may update its attributes in place or throw: the tree
    after the walk, unless a call threw. *)
Fixpoint forEach_element (h : element -> result element) (n : node)
    : result node :=
  match n with
  | Element el children =>
      el' ← h el;
      children' ← forEach (forEach_element h) children;
      Ok (Element el' children')
  | Template el content => el' ← h el; Ok (Template el' content)
  | _ => Ok n
  end.

(** [querySelectorAll(sel).forEach(el => g(el))]: the walk calls [g] on the
    elements that match and passes the others by. *)
Definition forEach_selected (sel : selector) (g : element -> result element)
    : node -> result node :=
  forEach_element (fun el => if element_matches sel el then g el else Ok el).

(** [querySelectorAll(sel).forEach(m => m.remove())] below [n]: every
    matching descendant leaves the tree, with its subtree.  The contents of
    a template hold no descendant of [n]. *)
Fixpoint remove_selected (sel : selector) (n : node) : node :=
  match n with
  | Element el children =>
      Element el
        ((fix go (l : list node) : list node :=
            match l with
            | [] => []
            | c :: l' =>
                if matches sel c then go l'
                else remove_selected sel c :: go l'
            end) children)
  | _ => n
  end.

(** *** Serialisation (HTML Standard 13.3, "Serializing HTML fragments") *)

Definition void_elements : list jsstring :=
  map js ["area"; "base"; "basefont"; "bgsound"; "br"; "col"; "embed";
          "frame"; "hr"; "img"; "input"; "keygen"; "link"; "meta"; "param";
          "source"; "track"; "wbr"]%string.

Definition raw_text_elements : list jsstring :=
  map js ["style"; "script"; "xmp"; "iframe"; "noembed"; "noframes";
          "plaintext"]%string.

Definition escape_text (s : jsstring) : jsstring :=
  flat_map (fun c =>
    if c =? 38 then js "&amp;"
    else if c =? 160 then js "&nbsp;"
    else if c =? 60 then js "&lt;"
    else if c =? 62 then js "&gt;"
    else [c]) s.

Definition escape_attribute (s : jsstring) : jsstring :=
  flat_map (fun c =>
    if c =? 38 then js "&amp;"
    else if c =? 160 then js "&nbsp;"
    else if c =? 34 then js "&quot;"
    else [c]) s.

Definition serialize_attribute (a : jsstring * jsstring) : jsstring :=
  [32] ++ a.1 ++ [61; 34] ++ escape_attribute a.2 ++ [34].

Definition start_tag (el : element) : jsstring :=
  [60] ++ localName el ++ flat_map serialize_attribute (attributes el) ++ [62].

Definition end_tag (el : element) : jsstring :=
  [60; 47] ++ localName el ++ [62].

(** The serialisation of a node whose parent is [parent]; for a template
    the serialiser writes the contents where it writes the children of
    another element. *)
Fixpoint serialize_in (parent : jsstring) (n : node) : jsstring :=
  match n with
  | Element el children | Template el children =>
      if bool_decide (localName el ∈ void_elements) then start_tag el
      else start_tag el ++
           flat_map (serialize_in (localName el)) children ++
           end_tag el
  | Text data =>
      if bool_decide (parent ∈ raw_text_elements) then data
      else escape_text data
  | Comment data => js "<!--" ++ data ++ js "-->"
  end.

Definition serialize (n : node) : jsstring := serialize_in [] n.

End DOM.

Export DOM.

(** ** What [server.ts] imports *)

(** A [URL] object, by the two properties the source reads. *)
Record URL := mkURL {
  href : jsstring;
  hostname : jsstring
}.

(** A node-fetch [Response], by what the handler reads of it: the final URL
    after redirects, [headers.get('content-type')], and the two ways of
    reading the body, each of which may reject. *)
Record Response := mkResponse {
  url : jsstring;
  content_type : option jsstring;
  text : result jsstring;
  arrayBuffer : result (list Z)
}.

(** The collaborators of the file, none of them code of the repository:
    - [URL_new u base] is [new URL(u, base)] ([base] optional), which throws
      a TypeError when the input does not parse;
    - [JSDOM_new html u] is [new JSDOM(html, { url: u }).window.document];
    - [outerHTML] is the serialiser behind [element.outerHTML];
    - [DOMPurify_sanitize] is [DOMPurify.sanitize];
    - [fetch u] is [fetch(u, { redirect: 'follow' })], a throw standing for
      a rejected promise;
    - [env_ALLOWED_HOSTS] is [process.env.ALLOWED_HOSTS]. *)
Record Platform := mkPlatform {
  URL_new : jsstring -> option jsstring -> result URL;
  JSDOM_new : jsstring -> jsstring -> result document;
  outerHTML : node -> jsstring;
  DOMPurify_sanitize : jsstring -> jsstring;
  fetch : jsstring -> result Response;
  env_ALLOWED_HOSTS : option jsstring
}.

(** The serialisation of a URL holds no unpaired surrogate (the URL
    Standard's serialiser writes ASCII): the one fact about the [URL]
    constructor that the theorems on [encodeURIComponent] rest on. *)
Definition URL_conforms (W : Platform) : Prop :=
  forall u base parsed,
    URL_new W u base = Ok parsed -> well_formed (href parsed) = true.

(** ** [server.ts] *)

Module Server.

Section WithPlatform.
Context (W : Platform).

(** [const ALLOWED_HOSTS =
      (process.env.ALLOWED_HOSTS || '').split(',').filter(Boolean);] *)
Definition ALLOWED_HOSTS : list jsstring :=
  List.filter truthy (split 44 (or_else (env_ALLOWED_HOSTS W) [])).

(** [Array.prototype.includes] on an array of strings. *)
Definition Array_includes (l : list jsstring) (x : jsstring) : bool :=
  existsb (fun y => bool_decide (y = x)) l.

Definition isAllowedHost (hostname : jsstring) : bool :=
  if (length ALLOWED_HOSTS =? 0)%nat then true
  else Array_includes ALLOWED_HOSTS hostname.

Definition resolveAbsoluteUrl (base maybe : jsstring)
    : result (option jsstring) :=
  try_catch
    (u ← URL_new W maybe (Some base); Ok (Some (href u)))
    (fun _ => Ok None).

(** [/^\s*(javascript|data):/i.test(val)] *)
Definition is_script_or_data (val : jsstring) : bool :=
  let v := skip_space val in
  startsWith_ci v (js "javascript:") || startsWith_ci v (js "data:").

Definition proxy_path : jsstring := js "/proxy_backend?url=".

(** The closure [rewriteAttr] of [rewriteHtml]; [baseUrl] is the variable it
    captures.  The element is updated in place in the source: the result is
    the element after the call. *)
Definition rewriteAttr (baseUrl : jsstring) (el : element) (attr : jsstring)
    : result element :=
  match getAttribute el attr with
  | None => Ok el
  | Some val =>
      if negb (truthy val) then Ok el
      else
        abs ← resolveAbsoluteUrl baseUrl val;
        match abs with
        | None => Ok el
        | Some abs =>
            if negb (truthy abs) then Ok el
            else if is_script_or_data val then Ok el
            else
              enc ← encodeURIComponent abs;
              Ok (setAttribute el attr (proxy_path ++ enc))
        end
  end.

(** The five [querySelectorAll(...).forEach(...)] statements, in order. *)
Definition rewrite_links (baseUrl : jsstring) (root : node) : result node :=
  root ← forEach_selected (HasAttribute (js "a") (js "href"))
            (fun a => rewriteAttr baseUrl a (js "href")) root;
  root ← forEach_selected (HasAttribute (js "img") (js "src"))
            (fun img => rewriteAttr baseUrl img (js "src")) root;
  root ← forEach_selected (HasAttribute (js "script") (js "src"))
            (fun s => rewriteAttr baseUrl s (js "src")) root;
  root ← forEach_selected (HasAttribute (js "link") (js "href"))
            (fun l => rewriteAttr baseUrl l (js "href")) root;
  forEach_selected (HasAttribute (js "form") (js "action"))
            (fun f => rewriteAttr baseUrl f (js "action")) root.

(** What the five statements do to one element, in that order. *)
Definition rewrite_selected (baseUrl tag attr : jsstring) (el : element)
    : result element :=
  if element_matches (HasAttribute tag attr) el
  then rewriteAttr baseUrl el attr else Ok el.

Definition rewrite_element (baseUrl : jsstring) (el : element)
    : result element :=
  el ← rewrite_selected baseUrl (js "a") (js "href") el;
  el ← rewrite_selected baseUrl (js "img") (js "src") el;
  el ← rewrite_selected baseUrl (js "script") (js "src") el;
  el ← rewrite_selected baseUrl (js "link") (js "href") el;
  rewrite_selected baseUrl (js "form") (js "action") el.

(** The five element and attribute pairs of the source, as a table. *)
Definition link_targets : list (jsstring * jsstring) :=
  [ (js "a", js "href"); (js "img", js "src"); (js "script", js "src");
    (js "link", js "href"); (js "form", js "action") ].

(** The attribute the rewriter targets on an element of a given name. *)
Definition target_attribute (tag : jsstring) : option jsstring :=
  if decide (tag = js "a") then Some (js "href")
  else if decide (tag = js "img") then Some (js "src")
  else if decide (tag = js "script") then Some (js "src")
  else if decide (tag = js "link") then Some (js "href")
  else if decide (tag = js "form") then Some (js "action")
  else None.

Definition csp_meta : selector :=
  AttributeIs (js "meta") (js "http-equiv") (js "Content-Security-Policy").

(** The document tree just before it is serialised. *)
Definition rewrite_document (baseUrl : jsstring) (doc : document)
    : result node :=
  root ← rewrite_links baseUrl (documentElement doc);
  Ok (remove_selected csp_meta root).

Definition rewriteHtml (baseUrl html : jsstring) : result jsstring :=
  doc ← JSDOM_new W html baseUrl;
  root ← rewrite_document baseUrl doc;
  Ok (outerHTML W root).

(** *** The [/proxy_backend] handler *)

Inductive payload :=
| Str (s : jsstring)
| Buf (bytes : list Z).

(** The response as the handler leaves it: the status ([200] unless
    [res.status] was called), the headers it set with [res.set], in order,
    and what it sent. *)
Record http_response := mkResponseOut {
  status : Z;
  headers : list (jsstring * jsstring);
  body : payload
}.

(** The handler runs against the network: the state it threads is the list
    of the URLs it asked [fetch] for, in order. *)
Definition io (A : Type) : Type := list jsstring -> result A * list jsstring.

Definition io_ret {A} (a : A) : io A := fun log => (Ok a, log).

Definition io_bind {A B} (m : io A) (k : A -> io B) : io B :=
  fun log =>
    match m log with
    | (Ok a, log') => k a log'
    | (Throw e, log') => (Throw e, log')
    end.

Definition io_lift {A} (r : result A) : io A := fun log => (r, log).

Definition io_fetch (u : jsstring) : io Response :=
  fun log => (fetch W u, log ++ [u]).

Definition io_try {A} (m : io A) (h : exn -> io A) : io A :=
  fun log =>
    match m log with
    | (Ok a, log') => (Ok a, log')
    | (Throw e, log') => h e log'
    end.

#[local] Instance io_mret : MRet io := @io_ret.
#[local] Instance io_mbind : MBind io := fun A B k m => io_bind m k.

(** The body of the handler's [try] block. *)
Definition proxy_try (target : jsstring) : io http_response :=
  upstream ← io_fetch target;
  let contentType :=
    or_else (content_type upstream) (js "application/octet-stream") in
  if includes contentType (js "text/html") then
    body ← io_lift (text upstream);
    let body := DOMPurify_sanitize W body in
    body ← io_lift (rewriteHtml target body);
    io_ret (mkResponseOut 200
              [(js "Content-Type", js "text/html; charset=utf-8");
               (js "X-Frame-Options", js "SAMEORIGIN")]
              (Str body))
  else
    buffer ← io_lift (arrayBuffer upstream);
    io_ret (mkResponseOut 200 [(js "Content-Type", contentType)] (Buf buffer)).

(** [res.status(502).send('fetch error: ' + (err.message || 'unknown'))] *)
Definition bad_gateway (err : exn) : http_response :=
  mkResponseOut 502 []
    (Str (js "fetch error: " ++
          or_else (Some (exn_message err)) (js "unknown"))).

(** [app.get('/proxy_backend', async (req, res) => ...)], given
    [req.query.url] (undefined when the parameter is missing). *)
Definition proxy_backend (query_url : option jsstring) : io http_response :=
  match query_url with
  | None => io_ret (mkResponseOut 400 [] (Str (js "missing url")))
  | Some target =>
      if negb (truthy target)
      then io_ret (mkResponseOut 400 [] (Str (js "missing url")))
      else
        match try_catch (Some <$> URL_new W target None) (fun _ => Ok None) with
        | Throw _ | Ok None =>
            io_ret (mkResponseOut 400 [] (Str (js "invalid url")))
        | Ok (Some parsed) =>
            if negb (isAllowedHost (hostname parsed))
            then io_ret (mkResponseOut 403 [] (Str (js "host not allowed")))
            else
              io_try (proxy_try target) (fun err => io_ret (bad_gateway err))
        end
  end.

(** One request against a fresh log: the response and the fetches made.  The
    handler catches what its [try] block throws, so a response is always
    there; the default stands for a handler that throws. *)
Definition handle (query_url : option jsstring)
    : option http_response * list jsstring :=
  match proxy_backend query_url [] with
  | (Ok r, log) => (Some r, log)
  | (Throw _, log) => (None, log)
  end.

End WithPlatform.

End Server.

Export Server.

(** ** [render.ts]: the allowlist check of the render service *)

Module Render.

Section WithPlatform.
Context (W : Platform).

(** [const ALLOWED = (process.env.ALLOWED_HOSTS || '').split(',')
      .filter(Boolean);] *)
Definition ALLOWED : list jsstring :=
  List.filter truthy (split 44 (or_else (env_ALLOWED_HOSTS W) [])).

(** [function ok(u)]: with an empty list the URL is not parsed at all; an
    exception of the [URL] constructor makes the answer false. *)
Definition ok (u : jsstring) : bool :=
  match
    try_catch
      (if (length ALLOWED =? 0)%nat then Ok true
       else parsed ← URL_new W u None;
            Ok (Array_includes ALLOWED (hostname parsed)))
      (fun _ => Ok false)
  with
  | Ok b => b
  | Throw _ => false
  end.

End WithPlatform.

End Render.

(** ** A sample platform

    Finite excerpts of what the collaborators answer, enough to run the
    handler on the requests of the examples below.  The [URL] entries are the
    results of the WHATWG URL parser on the listed inputs, and every input
    that is not listed is treated as one that does not parse; the documents
    are the trees the HTML parser builds for the listed markup. *)

Module Sample.

Definition quoted (s : jsstring) : jsstring := [34] ++ s ++ [34].

Definition url_table : list (jsstring * option jsstring * URL) :=
  let site := js "https://example.com/" in
  [ (site, None, mkURL site (js "example.com"));
    (js "https://example.com/logo.png", None,
       mkURL (js "https://example.com/logo.png") (js "example.com"));
    (js "https://example.com/raw", None,
       mkURL (js "https://example.com/raw") (js "example.com"));
    (js "https://example.com/page", None,
       mkURL (js "https://example.com/page") (js "example.com"));
    (js "http://old.example/", None,
       mkURL (js "http://old.example/") (js "old.example"));
    (js "http://new.example/dir/", None,
       mkURL (js "http://new.example/dir/") (js "new.example"));
    (js "https://evil.com/", None,
       mkURL (js "https://evil.com/") (js "evil.com"));
    (js "https://down.example/", None,
       mkURL (js "https://down.example/") (js "down.example"));
    ([], Some site, mkURL site (js "example.com"));
    (js "/about", Some site,
       mkURL (js "https://example.com/about") (js "example.com"));
    (js " JavaScript:alert(1)", Some site,
       mkURL (js "javascript:alert(1)") []);
    (js "data:image/gif;base64,R0lGOD", Some site,
       mkURL (js "data:image/gif;base64,R0lGOD") []);
    (js "/about", Some (js "https://example.com/page"),
       mkURL (js "https://example.com/about") (js "example.com"));
    (js "x", Some (js "http://old.example/"),
       mkURL (js "http://old.example/x") (js "old.example"));
    (js "x", Some (js "http://new.example/dir/"),
       mkURL (js "http://new.example/dir/x") (js "new.example")) ].

Fixpoint assoc {K V} `{EqDecision K} (k : K) (l : list (K * V)) : option V :=
  match l with
  | [] => None
  | (k', v) :: l' => if decide (k' = k) then Some v else assoc k l'
  end.

Definition site : jsstring := js "https://example.com/".

Definition URL_new (u : jsstring) (base : option jsstring) : result URL :=
  match assoc (u, base) url_table with
  | Some parsed => Ok parsed
  | None => Throw (TypeError (js "Invalid URL"))
  end.

Definition el (name : string) (attrs : list (string * jsstring))
    (children : list node) : node :=
  Element (mkElement (js name) (map (fun a => (js a.1, a.2)) attrs)) children.

Definition about_link : element :=
  mkElement (js "a") [(js "href", js "/about")].
Definition empty_link : element := mkElement (js "a") [(js "href", [])].
Definition script_link : element :=
  mkElement (js "a") [(js "href", js " JavaScript:alert(1)")].
Definition broken_link : element :=
  mkElement (js "a") [(js "href", js "https://")].

(** [<a href="x">y</a>] *)
Definition link_markup : jsstring :=
  js "<a href=" ++ quoted (js "x") ++ js ">y</a>".

Definition link_document : document :=
  mkDocument [] []
    [ el "head" [] [];
      el "body" [] [ el "a" [("href"%string, js "x")] [Text (js "y")] ] ]
    [].

(** A page with a policy in a [meta] element, a link that does not resolve,
    an ordinary link, an empty link, a [javascript:] link and a [data:]
    image. *)
Definition page_markup : jsstring :=
  js "<!DOCTYPE html><html lang=" ++ quoted (js "en") ++
  js "><head><meta http-equiv=" ++ quoted (js "Content-Security-Policy") ++
  js " content=" ++ quoted (js "default-src 'none'") ++
  js "><title>t</title></head><body><a href=" ++ quoted (js "https://") ++
  js ">bad</a><a href=" ++ quoted (js "/about") ++
  js ">About</a><a href=" ++ quoted [] ++
  js ">here</a><a href=" ++ quoted (js " JavaScript:alert(1)") ++
  js ">run</a><img src=" ++ quoted (js "data:image/gif;base64,R0lGOD") ++
  js "></body></html><!-- served by origin -->".

Definition page_document : document :=
  mkDocument
    [ DocumentType (js "html") ]
    [ (js "lang", js "en") ]
    [ el "head" []
        [ el "meta" [("http-equiv"%string, js "Content-Security-Policy");
                     ("content"%string, js "default-src 'none'")] [];
          el "title" [] [Text (js "t")] ];
      el "body" []
        [ el "a" [("href"%string, js "https://")] [Text (js "bad")];
          el "a" [("href"%string, js "/about")] [Text (js "About")];
          el "a" [("href"%string, [])] [Text (js "here")];
          el "a" [("href"%string, js " JavaScript:alert(1)")] [Text (js "run")];
          el "img" [("src"%string, js "data:image/gif;base64,R0lGOD")] [] ] ]
    [ OuterComment (js " served by origin ") ].

(** What the rewriter makes of the page at [https://example.com/]. *)
Definition page_rewritten : jsstring :=
  js "<html lang=" ++ quoted (js "en") ++
  js "><head><title>t</title></head><body><a href=" ++ quoted (js "https://") ++
  js ">bad</a><a href=" ++
  quoted (js "/proxy_backend?url=https%3A%2F%2Fexample.com%2Fabout") ++
  js ">About</a><a href=" ++ quoted [] ++
  js ">here</a><a href=" ++ quoted (js " JavaScript:alert(1)") ++
  js ">run</a><img src=" ++ quoted (js "data:image/gif;base64,R0lGOD") ++
  js "></body></html>".

(** A page with a policy in a [meta] element of the head and another one
    between the tags of a [template] element. *)
Definition template_markup : jsstring :=
  js "<html><head><meta http-equiv=" ++ quoted (js "Content-Security-Policy") ++
  js " content=" ++ quoted (js "default-src 'self'") ++
  js "><template><meta http-equiv=" ++ quoted (js "Content-Security-Policy") ++
  js " content=" ++ quoted (js "default-src 'none'") ++
  js "></template></head><body></body></html>".

Definition template_document : document :=
  mkDocument [] []
    [ el "head" []
        [ el "meta" [("http-equiv"%string, js "Content-Security-Policy");
                     ("content"%string, js "default-src 'self'")] [];
          Template (mkElement (js "template") [])
            [ el "meta" [("http-equiv"%string, js "Content-Security-Policy");
                         ("content"%string, js "default-src 'none'")] [] ] ];
      el "body" [] [] ]
    [].


Definition empty_document : document :=
  mkDocument [] [] [ el "head" [] []; el "body" [] [] ] [].

(** [new JSDOM(html, { url })]: the constructor parses [url] first and
    throws when it is not a URL. *)
Definition JSDOM_new (html u : jsstring) : result document :=
  _ ← URL_new u None;
  Ok (if decide (html = link_markup) then link_document
      else if decide (html = page_markup) then page_document
      else if decide (html = template_markup) then template_document
      else empty_document).

Definition png_bytes : list Z := [137; 80; 78; 71; 13; 10; 26; 10].

Definition fetch (u : jsstring) : result Response :=
  if decide (u = js "http://old.example/") then
    (* answers 302 to http://new.example/dir/, which serves a page *)
    Ok (mkResponse (js "http://new.example/dir/")
          (Some (js "text/html; charset=utf-8"))
          (Ok link_markup) (Ok link_markup))
  else if decide (u = js "https://example.com/page") then
    Ok (mkResponse u (Some (js "text/html")) (Ok link_markup) (Ok link_markup))
  else if decide (u = js "https://example.com/logo.png") then
    Ok (mkResponse u (Some (js "image/png"))
          (Ok [65533; 80; 78; 71; 13; 10; 26; 10]) (Ok png_bytes))
  else if decide (u = js "https://example.com/raw") then
    Ok (mkResponse u None (Ok (js "raw")) (Ok (js "raw")))
  else if decide (u = js "https://example.com/") then
    Ok (mkResponse u (Some []) (Ok (js "raw")) (Ok (js "raw")))
  else Throw (FetchError (js "connect ECONNREFUSED")).

(** The page [link_markup] with its link sent through the proxy, resolved
    against the requested URL and against the URL the fetch ended at. *)
Definition link_page (proxied : jsstring) : jsstring :=
  js "<html><head></head><body><a href=" ++ quoted proxied ++
  js ">y</a></body></html>".

Definition link_page_old : jsstring :=
  link_page (js "/proxy_backend?url=http%3A%2F%2Fold.example%2Fx").

Definition link_page_new : jsstring :=
  link_page (js "/proxy_backend?url=http%3A%2F%2Fnew.example%2Fdir%2Fx").

(** The platform without an allowlist (every host is allowed). *)
Definition open_platform : Platform :=
  mkPlatform URL_new JSDOM_new serialize (fun html => html) fetch None.

(** The same platform with [ALLOWED_HOSTS=example.com,old.example]. *)
Definition closed_platform : Platform :=
  mkPlatform URL_new JSDOM_new serialize (fun html => html) fetch
    (Some (js "example.com,old.example")).

End Sample.

(** ** Handlers with a state: the requests made, the browser's life *)

Module Eff.

(** A computation over a state of type [S] that returns or throws; the state
    survives an exception. *)
Definition eff (S A : Type) : Type := S -> result A * S.

Definition ret {S A} (a : A) : eff S A := fun s => (Ok a, s).

Definition bind {S A B} (m : eff S A) (k : A -> eff S B) : eff S B :=
  fun s =>
    match m s with
    | (Ok a, s') => k a s'
    | (Throw e, s') => (Throw e, s')
    end.

Definition lift {S A} (r : result A) : eff S A := fun s => (r, s).

Definition modify {S} (f : S -> S) : eff S unit := fun s => (Ok tt, f s).

(** [try { m } catch (err) { h err }] *)
Definition catch {S A} (m : eff S A) (h : exn -> eff S A) : eff S A :=
  fun s =>
    match m s with
    | (Ok a, s') => (Ok a, s')
    | (Throw e, s') => h e s'
    end.

(** [try { m } finally { f }]: [f] runs however [m] ends; when [f] throws,
    that is how the statement ends. *)
Definition finally {S A} (m : eff S A) (f : eff S unit) : eff S A :=
  fun s =>
    match m s with
    | (r, s') =>
        match f s' with
        | (Ok _, s'') => (r, s'')
        | (Throw e, s'') => (Throw e, s'')
        end
    end.

End Eff.

#[export] Instance eff_mret {S} : MRet (Eff.eff S) := @Eff.ret S.
#[export] Instance eff_mbind {S} : MBind (Eff.eff S) :=
  fun A B k m => Eff.bind m k.

(** ** [server.ts]: the [/search] endpoint *)

Module Search.

#[local] Set Warnings "-register-all".

(** A JavaScript value as [JSON.parse] builds it, and [undefined], which
    reading a missing property gives. *)
Inductive value :=
| Undefined
| Null
| Bool (b : bool)
| Number (n : float)
| String (s : jsstring)
| Array (items : list value)
| Object (fields : list (jsstring * value)).

(** ToBoolean. *)
Definition ToBoolean (v : value) : bool :=
  match v with
  | Undefined | Null => false
  | Bool b => b
  | Number n => negb (PrimFloat.eqb n 0%float || PrimFloat.is_nan n)
  | String s => truthy s
  | Array _ | Object _ => true
  end.

(** [a || b] *)
Definition or_value (a b : value) : value := if ToBoolean a then a else b.

Definition isArray (v : value) : bool :=
  match v with Array _ => true | _ => false end.

(** The elements a [for ... of] loop over an array visits. *)
Definition items_of (v : value) : list value :=
  match v with Array items => items | _ => [] end.

Fixpoint lookup_field (fields : list (jsstring * value)) (key : jsstring)
    : value :=
  match fields with
  | [] => Undefined
  | (k, v) :: rest => if bool_decide (k = key) then v else lookup_field rest key
  end.

(** [v.key] for the property names of the source, none of which a string, a
    number, a boolean or an array has: reading from [null] or [undefined]
    throws a TypeError, an object gives its field or [undefined], every
    other value gives [undefined]. *)
Definition get (v : value) (key : string) : result value :=
  match v with
  | Undefined =>
      Throw (TypeError (js "Cannot read properties of undefined (reading '"
                        ++ js key ++ js "')"))
  | Null =>
      Throw (TypeError (js "Cannot read properties of null (reading '"
                        ++ js key ++ js "')"))
  | Object fields => Ok (lookup_field fields (js key))
  | _ => Ok Undefined
  end.

(** An entry of [results]; a property that is not there reads as
    [undefined]. *)
Record search_result := mkResult {
  title : value;
  url : value;
  snippet : value
}.

(** [for (const x of items) body], the loop's variable being the list of
    results so far. *)
Definition for_of (body : value -> list search_result -> result (list search_result))
    : list value -> list search_result -> result (list search_result) :=
  fix go (items : list value) (results : list search_result) :=
    match items with
    | [] => Ok results
    | x :: rest => results' ← body x results; go rest results'
    end.

(** [if (x.FirstURL && x.Text) results.push({ title: x.Text, url: x.FirstURL })] *)
Definition push_topic (x : value) (results : list search_result)
    : result (list search_result) :=
  first ← get x "FirstURL";
  if ToBoolean first then
    text ← get x "Text";
    if ToBoolean text then Ok (results ++ [mkResult text first Undefined])
    else Ok results
  else Ok results.

(** The body of the loop over [j.Results]. *)
Definition push_result (it : value) (results : list search_result)
    : result (list search_result) :=
  if ToBoolean it then
    first ← get it "FirstURL";
    if ToBoolean first then
      text ← get it "Text";
      if ToBoolean text then
        res ← get it "Result";
        Ok (results ++ [mkResult text first (or_value res (String []))])
      else Ok results
    else Ok results
  else Ok results.

(** The body of the loop over [j.RelatedTopics]. *)
Definition push_related (t : value) (results : list search_result)
    : result (list search_result) :=
  topics ← get t "Topics";
  if ToBoolean topics && isArray topics
  then for_of push_topic (items_of topics) results
  else push_topic t results.

(** The lines of the handler from [const results = []] to
    [results.slice(0, 30)]. *)
Definition collect (j : value) : result (list search_result) :=
  rs ← get j "Results";
  results ←
    (if isArray rs && negb (length (items_of rs) =? 0)%nat
     then for_of push_result (items_of rs) []
     else Ok []);
  related ← get j "RelatedTopics";
  results ←
    (if isArray related then for_of push_related (items_of related) results
     else Ok results);
  abstractURL ← get j "AbstractURL";
  abstractText ← get j "AbstractText";
  results ←
    (if ToBoolean (or_value abstractURL abstractText) then
       heading ← get j "Heading";
       Ok (mkResult (or_value heading (or_value abstractText (String (js "Summary"))))
             (or_value abstractURL Undefined)
             (or_value abstractText Undefined) :: results)
     else Ok results);
  Ok (take 30 results).

(** [String.prototype.trim]: the white space and line terminators at both
    ends are dropped. *)
Definition trim (s : jsstring) : jsstring :=
  rev (skip_space (rev (skip_space s))).

(** [req.query.q] as the query parser of Express builds it, the cast of the
    source being erased when the program runs: a string, an array when the
    parameter is repeated ([?q=a&q=b]), an object when its name carries
    brackets ([?q[k]=v]). *)
Inductive query_value :=
| QString (s : jsstring)
| QArray (items : list query_value)
| QObject (fields : list (jsstring * query_value)).

(** [v?.trim()] on [req.query.q]: [undefined] for a parameter that is not
    there, the trimmed string for a string.  An array has no [trim], and an
    object has none that is a function: calling it throws a TypeError (the
    wording of the message is the engine's). *)
Definition optional_trim (v : option query_value) : result (option jsstring) :=
  match v with
  | None => Ok None
  | Some (QString s) => Ok (Some (trim s))
  | Some (QArray _) | Some (QObject _) =>
      Throw (TypeError (js "req.query.q?.trim is not a function"))
  end.

(** The provider's answer, by what the handler reads of it: [r.ok],
    [r.status] and [r.json()]. *)
Record ProviderResponse := mkProviderResponse {
  provider_ok : bool;
  provider_status : Z;
  provider_json : result value
}.

(** What the endpoint imports: [qs_query q] is
    [qs.stringify({ q, format: 'json', no_html: 1, skip_disambig: 1 })] and
    [provider u] is [fetch(u)]. *)
Record Provider := mkProvider {
  qs_query : jsstring -> jsstring;
  provider : jsstring -> result ProviderResponse
}.

(** The JSON bodies the handler sends. *)
Inductive search_body :=
| ErrorBody (error : jsstring) (status : option Z)
| ResultsBody (query : jsstring) (results : list search_result).

Record search_response := mkSearchResponse {
  search_status : Z;
  search_body_of : search_body
}.

Section WithProvider.
Context (P : Provider).

Definition api_url (q : jsstring) : jsstring :=
  js "https://api.duckduckgo.com/?" ++ qs_query P q.

(** [fetch(apiUrl)], noted in the list of the requests made. *)
Definition fetch_provider (u : jsstring)
    : Eff.eff (list jsstring) ProviderResponse :=
  fun log => (provider P u, log ++ [u]).

(** The handler's [try] block. *)
Definition search_try (q : jsstring)
    : Eff.eff (list jsstring) search_response :=
  r ← fetch_provider (api_url q);
  if negb (provider_ok r) then
    mret (mkSearchResponse 502
            (ErrorBody (js "search-provider-failed") (Some (provider_status r))))
  else
    j ← Eff.lift (provider_json r);
    results ← Eff.lift (collect j);
    mret (mkSearchResponse 200 (ResultsBody q results)).

(** [app.get('/search', async (req, res) => ...)], given [req.query.q].  The
    first statement stands before the [try]: when it throws, the handler
    rejects and has sent nothing. *)
Definition search (query_q : option query_value)
    : Eff.eff (list jsstring) search_response :=
  q ← Eff.lift (optional_trim query_q);
  match q with
  | None => mret (mkSearchResponse 400 (ErrorBody (js "missing q") None))
  | Some q =>
      if negb (truthy q)
      then mret (mkSearchResponse 400 (ErrorBody (js "missing q") None))
      else
        Eff.catch (search_try q)
          (fun err =>
             mret (mkSearchResponse 500
                     (ErrorBody (or_else (Some (exn_message err)) (js "unknown"))
                        None)))
  end.

(** One request: what was sent, or the exception the handler rejected with,
    and the requests made for it. *)
Definition handle_search (query_q : option query_value)
    : result search_response * list jsstring :=
  search query_q [].

End WithProvider.

End Search.

(** *** When the aggregation throws *)

Module SearchFailure.
Import Search.

Definition is_throw {A} (r : result A) : bool :=
  match r with Throw _ => true | Ok _ => false end.

Definition nullish (v : value) : bool :=
  match v with Undefined | Null => true | _ => false end.

(** [v.key] where it does not throw. *)
Definition field (v : value) (key : string) : value :=
  match get v key with Ok x => x | Throw _ => Undefined end.

(** A related topic the loop cannot read: [null] itself, or a group whose
    [Topics] array holds a [null]. *)
Definition topic_fails (t : value) : bool :=
  nullish t ||
  (ToBoolean (field t "Topics") && isArray (field t "Topics") &&
   existsb nullish (items_of (field t "Topics"))).

Definition collect_fails (j : value) : bool :=
  nullish j ||
  (isArray (field j "RelatedTopics") &&
   existsb topic_fails (items_of (field j "RelatedTopics"))).

(** A result the client can show: it has a title, and a URL or a snippet. *)
Definition usable (r : search_result) : Prop :=
  ToBoolean (title r) = true /\
  (ToBoolean (url r) = true \/ ToBoolean (snippet r) = true).

End SearchFailure.

(** ** [render.ts]: the [/render] endpoint *)

Module RenderService.

(** What happens to the browser during a request. *)
Inductive event :=
| Launched
| CloseCalled.

(** What the handler asks of puppeteer, each call once per request at most
    and each one able to reject: [puppeteer.launch(...)],
    [browser.newPage()], [page.setViewport(...)], [page.goto(url, ...)],
    [page.content()] and [browser.close()]. *)
Record Puppeteer := mkPuppeteer {
  launch : result unit;
  newPage : result unit;
  setViewport : result unit;
  goto : jsstring -> result unit;
  content : result jsstring;
  close : result unit
}.

Record render_response := mkRenderResponse {
  render_status : Z;
  render_headers : list (jsstring * jsstring);
  render_body : jsstring
}.

(** The state a request runs in: what [res] has sent, whether the variable
    [browser] holds a browser, and the browser's events so far. *)
Record render_state := mkRenderState {
  sent : option render_response;
  browser : bool;
  events : list event
}.

Definition fresh : render_state := mkRenderState None false [].

Section WithPuppeteer.
Context (W : Platform) (B : Puppeteer).

Definition send (r : render_response) : Eff.eff render_state unit :=
  Eff.modify (fun s => mkRenderState (Some r) (browser s) (events s)).

(** [browser = await puppeteer.launch(...)] *)
Definition launch_browser : Eff.eff render_state unit :=
  fun s =>
    match launch B with
    | Ok _ => (Ok tt, mkRenderState (sent s) true (events s ++ [Launched]))
    | Throw e => (Throw e, s)
    end.

(** [if (browser) await browser.close()] *)
Definition close_browser : Eff.eff render_state unit :=
  fun s =>
    if browser s
    then (close B, mkRenderState (sent s) (browser s) (events s ++ [CloseCalled]))
    else (Ok tt, s).

(** The handler's [try] block. *)
Definition render_try (u : jsstring) : Eff.eff render_state unit :=
  _ ← launch_browser;
  _ ← Eff.lift (newPage B);
  _ ← Eff.lift (setViewport B);
  _ ← Eff.lift (goto B u);
  html ← Eff.lift (content B);
  send (mkRenderResponse 200
          [(js "Content-Type", js "text/html; charset=utf-8")] html).

(** [app.get('/render', async (req, res) => ...)], given [req.query.url]. *)
Definition render (query_url : option jsstring) : Eff.eff render_state unit :=
  match query_url with
  | None => send (mkRenderResponse 400 [] (js "missing url"))
  | Some u =>
      if negb (truthy u) then send (mkRenderResponse 400 [] (js "missing url"))
      else if negb (Render.ok W u)
      then send (mkRenderResponse 403 [] (js "forbidden"))
      else
        Eff.finally
          (Eff.catch (render_try u)
             (fun err =>
                send (mkRenderResponse 500 []
                        (js "render error: " ++
                         or_else (Some (exn_message err)) (js "unknown")))))
          close_browser
  end.

(** One request: how the handler ended, and the state it left. *)
Definition handle_render (query_url : option jsstring)
    : result unit * render_state :=
  render query_url fresh.

End WithPuppeteer.

End RenderService.

(** ** The client ([App]): opening pages and the history *)

Module App.

Inductive Mode :=
| proxy
| render.

(** The two properties of the [iframe] the component assigns. *)
Record iframe := mkIframe {
  src : option jsstring;
  srcdoc : option jsstring
}.

(** The state of the component the handlers read and write: [mode], [url],
    [history], [pos], and [iframe.current] (null until the frame is there).
    An entry of [history] is a string, or [undefined] when it was read past
    the end of the array. *)
Record state := mkState {
  mode : Mode;
  url : jsstring;
  history : list (option jsstring);
  pos : Z;
  frame : option iframe
}.

(** What [useState] starts from, with the frame in place. *)
Definition initial : state :=
  mkState proxy (js "https://example.com") [] (-1) (Some (mkIframe None None)).

(** A search result as the component types it. *)
Record SearchResult := mkSearchResult {
  result_title : jsstring;
  result_url : option jsstring;
  result_snippet : option jsstring
}.

(** ToString on [string | undefined]. *)
Definition ToString (s : option jsstring) : jsstring :=
  match s with Some s => s | None => js "undefined" end.

(** ToBoolean on [string | undefined]. *)
Definition truthy_opt (s : option jsstring) : bool :=
  match s with Some s => truthy s | None => false end.

(** [a.length] as a number. *)
Definition len {A} (a : list A) : Z := Z.of_nat (length a).

(** [a.slice(0, end)]: a negative [end] counts from the end of the array. *)
Definition slice_to {A} (a : list A) (e : Z) : list A :=
  if e <? 0 then take (Z.to_nat (Z.max 0 (len a + e))) a
  else take (Z.to_nat e) a.

(** [a[i]], [undefined] outside the array. *)
Definition at_index (a : list (option jsstring)) (i : Z) : option jsstring :=
  if i <? 0 then None else mjoin (a !! Z.to_nat i).

Definition set_src (f : option iframe) (v : jsstring) : option iframe :=
  match f with
  | Some fr => Some (mkIframe (Some v) (srcdoc fr))
  | None => None
  end.

Definition set_srcdoc (f : option iframe) (v : jsstring) : option iframe :=
  match f with
  | Some fr => Some (mkIframe (src fr) (Some v))
  | None => None
  end.

(** The updater [openUrl] hands to [setHistory], [pos] being the position of
    the render the handler belongs to. *)
Definition push_history (pos : Z) (prev : list (option jsstring))
    (targetUrl : option jsstring) : list (option jsstring) :=
  let trimmed :=
    if (pos >=? 0) && (pos <? len prev - 1) then slice_to prev (pos + 1)
    else prev in
  trimmed ++ [targetUrl].

(** [openUrl(targetUrl)].  The state updates of one event are applied in
    the order they were queued: the updater gets the history as it is, and
    the [setPos] it calls comes last. *)
Definition openUrl (targetUrl : option jsstring) : Eff.eff state unit :=
  fun st =>
    match encodeURIComponent (ToString targetUrl) with
    | Throw e => (Throw e, st)
    | Ok enc =>
        let endpoint :=
          match mode st with
          | proxy => js "/proxy_backend?url=" ++ enc
          | render => js "/render?url=" ++ enc
          end in
        let next := push_history (pos st) (history st) targetUrl in
        (Ok tt,
         mkState (mode st) (url st) next (len next - 1)
           (set_src (frame st) endpoint))
    end.

(** [go()] *)
Definition go : Eff.eff state unit :=
  fun st =>
    if negb (truthy (url st)) then (Ok tt, st)
    else openUrl (Some (url st)) st.

(** [String(snippet).replace(/</g, '&lt;')] *)
Definition escape_lt (snippet : jsstring) : jsstring :=
  flat_map (fun c => if c =? 60 then js "&lt;" else [c]) snippet.

Definition about_snippet : jsstring := js "about:snippet".

(** [onResultClick(r)] *)
Definition onResultClick (r : SearchResult) : Eff.eff state unit :=
  fun st =>
    if truthy_opt (result_url r) then openUrl (result_url r) st
    else if truthy_opt (result_snippet r) then
      let next :=
        slice_to (history st) (pos st + 1) ++ [Some about_snippet] in
      (Ok tt,
       mkState (mode st) (url st) next (len next - 1)
         (set_srcdoc (frame st)
            (js "<pre>" ++ escape_lt (ToString (result_snippet r)) ++
             js "</pre>")))
    else (Ok tt, st).

(** The common part of [goBack] and [goForward]: [setPos(newPos)], then the
    entry at [newPos] is shown again.  When [openUrl] throws, the position
    set before it stays. *)
Definition show_entry (newPos : Z) : Eff.eff state unit :=
  fun st =>
    let target := at_index (history st) newPos in
    if bool_decide (target = Some about_snippet) then
      (Ok tt,
       mkState (mode st) (url st) (history st) newPos
         (set_srcdoc (frame st) (js "<div>Snippet</div>")))
    else
      match openUrl target st with
      | (Ok _, st') => (Ok tt, st')
      | (Throw e, _) =>
          (Throw e, mkState (mode st) (url st) (history st) newPos (frame st))
      end.

(** [goBack()] *)
Definition goBack : Eff.eff state unit :=
  fun st => if pos st >? 0 then show_entry (pos st - 1) st else (Ok tt, st).

(** [goForward()] *)
Definition goForward : Eff.eff state unit :=
  fun st =>
    if pos st <? len (history st) - 1 then show_entry (pos st + 1) st
    else (Ok tt, st).

End App.

(** *** What a request to [/render] comes to *)

Module RenderOutcome.
Import RenderService.

(** The steps between the launch and the response, run one after the
    other. *)
Definition page_html (B : Puppeteer) (u : jsstring) : result jsstring :=
  _ ← newPage B; _ ← setViewport B; _ ← goto B u; content B.

Definition page_response (html : jsstring) : render_response :=
  mkRenderResponse 200 [(js "Content-Type", js "text/html; charset=utf-8")] html.

Definition error_response (err : exn) : render_response :=
  mkRenderResponse 500 []
    (js "render error: " ++ or_else (Some (exn_message err)) (js "unknown")).

(** The request gets as far as [puppeteer.launch]. *)
Definition accepted (W : Platform) (query_url : option jsstring) : bool :=
  match query_url with
  | Some u => truthy u && Render.ok W u
  | None => false
  end.

(** The request gets a browser. *)
Definition launched (W : Platform) (B : Puppeteer)
    (query_url : option jsstring) : bool :=
  accepted W query_url &&
  match launch B with Ok _ => true | Throw _ => false end.

End RenderOutcome.

(** *** A session of the client *)

Module AppSession.
Import App.

(** What the user can do: type in the address field, choose the mode, and
    press Go, a search result, Back or Forward. *)
Inductive action :=
| SetUrl (u : jsstring)
| SetMode (m : Mode)
| Go
| Click (r : SearchResult)
| Back
| Forward.

(** The handler the component binds to each of them. *)
Definition perform (a : action) : Eff.eff state unit :=
  match a with
  | SetUrl u =>
      Eff.modify (fun st => mkState (mode st) u (history st) (pos st) (frame st))
  | SetMode m =>
      Eff.modify (fun st => mkState m (url st) (history st) (pos st) (frame st))
  | Go => go
  | Click r => onResultClick r
  | Back => goBack
  | Forward => goForward
  end.

(** The state after a series of actions; an exception of a handler ends
    that handler only. *)
Definition run (actions : list action) (st : state) : state :=
  foldl (fun st a => (perform a st).2) st actions.

(** The position is that of an entry, or -1 while there is none. *)
Definition in_range (st : state) : Prop :=
  (history st = [] /\ pos st = -1) \/ 0 <= pos st < len (history st).

#[export] Instance in_range_dec st : Decision (in_range st) :=
  ltac:(unfold in_range; apply _).

(** The entry is a string [openUrl] can encode. *)
Definition opens (e : option jsstring) : bool :=
  match e with
  | Some s =>
      match encodeURIComponent s with Ok _ => true | Throw _ => false end
  | None => false
  end.

(** What every state of a session satisfies. *)
Definition session_invariant (st : state) : Prop :=
  in_range st /\ Forall (fun e => opens e = true) (history st).

(** The route of the mode. *)
Definition route (m : Mode) : jsstring :=
  match m with
  | proxy => js "/proxy_backend?url="
  | render => js "/render?url="
  end.

End AppSession.

(** ** Sample data for the endpoints and the client *)

Module SampleSearch.
Import Search.

Definition topic (text address : string) : value :=
  Object [(js "FirstURL", String (js address)); (js "Text", String (js text))].

(** An answer of the provider with a summary, a result, a [null] among the
    results, a group of topics and a topic without a text. *)
Definition answer : value :=
  Object
    [(js "Heading", String (js "Rocq"));
     (js "AbstractText", String (js "A proof assistant."));
     (js "AbstractURL", String (js "https://rocq-prover.org/"));
     (js "Results",
      Array [Null; topic "Official site" "https://rocq-prover.org/"]);
     (js "RelatedTopics",
      Array
        [Object
           [(js "Name", String (js "Software"));
            (js "Topics",
             Array [topic "Proof assistants" "https://duckduckgo.com/c/Proof_assistants"])];
         Object [(js "FirstURL", String (js "https://duckduckgo.com/Lean"))];
         topic "Type theory" "https://duckduckgo.com/Type_theory"])].

Definition stringify (q : jsstring) : jsstring :=
  js "q=" ++
  match encodeURIComponent q with Ok e => e | Throw _ => [] end ++
  js "&format=json&no_html=1&skip_disambig=1".

Definition duckduckgo : Provider :=
  mkProvider stringify (fun _ => Ok (mkProviderResponse true 200 (Ok answer))).

(** The results the handler sends for the query [rocq]. *)
Definition found : list search_result :=
  match handle_search duckduckgo (Some (QString (js "  rocq "))) with
  | (Ok (mkSearchResponse _ (ResultsBody _ results)), _) => results
  | _ => []
  end.

(** An answer with a [null] among the related topics. *)
Definition broken_answer : value :=
  Object
    [(js "Results", Array [Null]);
     (js "RelatedTopics",
      Array [topic "Type theory" "https://duckduckgo.com/Type_theory"; Null])].

Definition broken : Provider :=
  mkProvider stringify
    (fun _ => Ok (mkProviderResponse true 200 (Ok broken_answer))).

End SampleSearch.

Module SampleApp.
Import App AppSession.

(** Three pages opened one after the other. *)
Definition three_pages : state :=
  run [SetUrl (js "https://a.example/"); Go;
       SetUrl (js "https://b.example/"); Go;
       SetUrl (js "https://c.example/"); Go] initial.

(** The same history with the position on the second page. *)
Definition two_of_three : state :=
  mkState (mode three_pages) (url three_pages) (history three_pages) 1
    (frame three_pages).

Definition snippet_result : SearchResult :=
  mkSearchResult (js "Rocq") None (Some (js "if a < b then <b>bold</b>")).

End SampleApp.

(** * Theorems *)

(** ** Percent-encoding *)

(** A property of the integers of a range, checked on each of them. *)
Lemma forallb_seqZ (P : Z -> bool) (lo len : Z) :
  forallb P (seqZ lo len) = true -> forall z, lo <= z < lo + len -> P z = true.
Proof.
  intros H z Hz. rewrite forallb_forall in H. apply H.
  apply list_elem_of_In, elem_of_seqZ. lia.
Qed.

Lemma hex_value_digit d : 0 <= d < 16 -> hex_value (hex_digit d) = Some d.
Proof.
  intros Hd.
  apply (forallb_seqZ (fun d => bool_decide (hex_value (hex_digit d) = Some d)) 0 16) in Hd.
  - by apply bool_decide_eq_true in Hd.
  - vm_compute. reflexivity.
Qed.

Lemma ParseHexOctet_pct b :
  0 <= b < 256 -> ParseHexOctet (hex_digit (b / 16)) (hex_digit (b mod 16)) = Some b.
Proof.
  intros Hb. unfold ParseHexOctet.
  rewrite !hex_value_digit by (Z.to_euclidean_division_equations; lia).
  f_equal. Z.to_euclidean_division_equations; lia.
Qed.

Lemma hex_digit_unescaped d : 0 <= d < 16 -> is_unescaped (hex_digit d) = true.
Proof.
  intros Hd.
  apply (forallb_seqZ (fun d => is_unescaped (hex_digit d)) 0 16) in Hd; [done|].
  vm_compute. reflexivity.
Qed.

Lemma leading_ones_octet B : 0 <= B < 256 -> leading_ones B = leading_ones_cmp B.
Proof.
  intros HB.
  apply (forallb_seqZ (fun B => bool_decide (leading_ones B = leading_ones_cmp B)) 0 256) in HB.
  - by apply bool_decide_eq_true in HB.
  - vm_compute. reflexivity.
Qed.

(** *** Bit operations on octets as arithmetic *)
Lemma land_disjoint hi lo n :
  0 <= n -> 0 <= lo < 2 ^ n -> Z.land (hi * 2 ^ n) lo = 0.
Proof.
  intros Hn Hlo. apply Z.bits_inj'. intros i Hi.
  rewrite Z.land_spec, Z.bits_0.
  destruct (Z.lt_ge_cases i n) as [Hlt|Hge].
  - by rewrite Z.mul_pow2_bits_low by lia.
  - destruct (Z.eq_dec lo 0) as [->|Hne].
    + by rewrite Z.bits_0, andb_false_r.
    + rewrite (Z.bits_above_log2 lo i), andb_false_r; [done|lia|].
      apply Z.log2_lt_pow2; [lia|].
      apply Z.lt_le_trans with (2 ^ n); [lia|]. apply Z.pow_le_mono_r; lia.
Qed.

Lemma lor_disjoint hi lo n :
  0 <= n -> 0 <= lo < 2 ^ n -> Z.lor (hi * 2 ^ n) lo = hi * 2 ^ n + lo.
Proof.
  intros Hn Hlo.
  rewrite <- Z.lxor_lor, <- Z.add_nocarry_lxor; auto using land_disjoint.
Qed.

Lemma land_ones_63 x : Z.land x 63 = x mod 64.
Proof. apply (Z.land_ones x 6). lia. Qed.
Lemma land_ones_31 x : Z.land x 31 = x mod 32.
Proof. apply (Z.land_ones x 5). lia. Qed.
Lemma land_ones_15 x : Z.land x 15 = x mod 16.
Proof. apply (Z.land_ones x 4). lia. Qed.
Lemma land_ones_7 x : Z.land x 7 = x mod 8.
Proof. apply (Z.land_ones x 3). lia. Qed.

Lemma shiftr_6 x : Z.shiftr x 6 = x / 64.
Proof. apply (Z.shiftr_div_pow2 x 6). lia. Qed.
Lemma shiftr_12 x : Z.shiftr x 12 = x / 4096.
Proof. apply (Z.shiftr_div_pow2 x 12). lia. Qed.
Lemma shiftr_18 x : Z.shiftr x 18 = x / 262144.
Proof. apply (Z.shiftr_div_pow2 x 18). lia. Qed.

Lemma lor_shiftl hi lo n :
  0 <= n -> 0 <= lo < 2 ^ n -> Z.lor (Z.shiftl hi n) lo = hi * 2 ^ n + lo.
Proof. intros. rewrite Z.shiftl_mul_pow2 by done. by apply lor_disjoint. Qed.

Lemma lor_128 x : 0 <= x < 64 -> Z.lor 128 x = 128 + x.
Proof. intros. apply (lor_disjoint 2 x 6); lia. Qed.
Lemma lor_192 x : 0 <= x < 64 -> Z.lor 192 x = 192 + x.
Proof. intros. apply (lor_disjoint 3 x 6); lia. Qed.
Lemma lor_224 x : 0 <= x < 32 -> Z.lor 224 x = 224 + x.
Proof. intros. apply (lor_disjoint 7 x 5); lia. Qed.
Lemma lor_240 x : 0 <= x < 16 -> Z.lor 240 x = 240 + x.
Proof. intros. apply (lor_disjoint 15 x 4); lia. Qed.

Lemma is_continuation_128 x : 0 <= x < 64 -> is_continuation (128 + x) = true.
Proof.
  intros Hx.
  apply (forallb_seqZ (fun x => is_continuation (128 + x)) 0 64) in Hx; [done|].
  vm_compute. reflexivity.
Qed.

Ltac divmod := Z.to_euclidean_division_equations; lia.

Lemma utf8_encode_1 cp : cp < 128 -> utf8_encode cp = [cp].
Proof. intros. unfold utf8_encode. case_match; [done|lia]. Qed.

Lemma utf8_encode_2 cp :
  128 <= cp < 2048 -> utf8_encode cp = [192 + cp / 64; 128 + cp mod 64].
Proof.
  intros. unfold utf8_encode. repeat (case_match; try lia).
  rewrite shiftr_6, land_ones_63, lor_192, lor_128 by divmod. done.
Qed.

Lemma utf8_encode_3 cp :
  2048 <= cp < 65536 ->
  utf8_encode cp = [224 + cp / 4096; 128 + (cp / 64) mod 64; 128 + cp mod 64].
Proof.
  intros. unfold utf8_encode. repeat (case_match; try lia).
  rewrite shiftr_6, shiftr_12, !land_ones_63, lor_224, !lor_128 by divmod. done.
Qed.

Lemma utf8_encode_4 cp :
  65536 <= cp < 2097152 ->
  utf8_encode cp =
    [240 + cp / 262144; 128 + (cp / 4096) mod 64; 128 + (cp / 64) mod 64;
     128 + cp mod 64].
Proof.
  intros. unfold utf8_encode. repeat (case_match; try lia).
  rewrite shiftr_6, shiftr_12, shiftr_18, !land_ones_63, lor_240, !lor_128
    by divmod. done.
Qed.

Lemma utf8_decode_2 y x :
  0 <= y < 32 -> 0 <= x < 64 -> 2 <= y ->
  utf8_decode [192 + y; 128 + x] = Some (y * 64 + x).
Proof.
  intros. unfold utf8_decode.
  rewrite is_continuation_128 by done.
  rewrite land_ones_31, land_ones_63.
  rewrite lor_shiftl by divmod.
  replace ((192 + y) mod 32) with y by divmod.
  replace ((128 + x) mod 64) with x by divmod.
  change (2 ^ 6) with 64.
  case_match; [done|]. apply andb_false_iff in H2 as [?|?%Z.leb_gt]; [done|lia].
Qed.

Lemma utf8_decode_3 z y x :
  0 <= z < 16 -> 0 <= y < 64 -> 0 <= x < 64 ->
  2048 <= z * 4096 + y * 64 + x ->
  ¬ (55296 <= z * 4096 + y * 64 + x <= 57343) ->
  utf8_decode [224 + z; 128 + y; 128 + x] = Some (z * 4096 + y * 64 + x).
Proof.
  intros. unfold utf8_decode.
  rewrite !is_continuation_128 by done.
  rewrite land_ones_15, !land_ones_63.
  rewrite (lor_shiftl _ _ 6) by divmod.
  rewrite (lor_shiftl _ _ 12) by divmod.
  replace ((224 + z) mod 16) with z by divmod.
  replace ((128 + y) mod 64) with y by divmod.
  replace ((128 + x) mod 64) with x by divmod.
  change (2 ^ 6) with 64. change (2 ^ 12) with 4096.
  replace (z * 4096 + (y * 64 + x)) with (z * 4096 + y * 64 + x) by lia.
  case_match eqn:E; [done|].
  rewrite !andb_false_iff, negb_false_iff, andb_true_iff in E.
  rewrite !Z.leb_gt, !Z.leb_le in E. simpl in E. 
  destruct E as [[?|?]|?]; try done; lia.
Qed.

Lemma utf8_decode_4 w z y x :
  0 <= w < 8 -> 0 <= z < 64 -> 0 <= y < 64 -> 0 <= x < 64 ->
  65536 <= w * 262144 + z * 4096 + y * 64 + x <= 1114111 ->
  utf8_decode [240 + w; 128 + z; 128 + y; 128 + x]
  = Some (w * 262144 + z * 4096 + y * 64 + x).
Proof.
  intros. unfold utf8_decode.
  rewrite !is_continuation_128 by done.
  rewrite land_ones_7, !land_ones_63.
  rewrite (lor_shiftl _ _ 6) by divmod.
  rewrite (lor_shiftl _ _ 12) by divmod.
  rewrite (lor_shiftl _ _ 18) by divmod.
  replace ((240 + w) mod 8) with w by divmod.
  replace ((128 + z) mod 64) with z by divmod.
  replace ((128 + y) mod 64) with y by divmod.
  replace ((128 + x) mod 64) with x by divmod.
  change (2 ^ 6) with 64. change (2 ^ 12) with 4096. change (2 ^ 18) with 262144.
  replace (w * 262144 + (z * 4096 + (y * 64 + x)))
    with (w * 262144 + z * 4096 + y * 64 + x) by lia.
  case_match eqn:E; [done|].
  rewrite !andb_false_iff, !Z.leb_gt in E. simpl in E.
  destruct E as [[?|?]|?]; try done; lia.
Qed.

Lemma decode_unescaped c e :
  c <> 37 -> decode (c :: e) = cons c <$> decode e.
Proof. intros Hc. cbn [decode]. by apply Z.eqb_neq in Hc as ->. Qed.

Lemma decode_percent h l rest1 :
  decode (37 :: h :: l :: rest1) =
  match ParseHexOctet h l with
  | None => Throw URI_malformed
  | Some B =>
      match leading_ones B with
      | 0%nat => cons B <$> decode rest1
      | 2%nat =>
          match rest1 with
          | p1 :: h1 :: l1 :: rest2 =>
              decode_sequence B [(p1, h1, l1)] (decode rest2)
          | _ => Throw URI_malformed
          end
      | 3%nat =>
          match rest1 with
          | p1 :: h1 :: l1 :: p2 :: h2 :: l2 :: rest3 =>
              decode_sequence B [(p1, h1, l1); (p2, h2, l2)] (decode rest3)
          | _ => Throw URI_malformed
          end
      | 4%nat =>
          match rest1 with
          | p1 :: h1 :: l1 :: p2 :: h2 :: l2 :: p3 :: h3 :: l3 :: rest4 =>
              decode_sequence B [(p1, h1, l1); (p2, h2, l2); (p3, h3, l3)]
                (decode rest4)
          | _ => Throw URI_malformed
          end
      | _ => Throw URI_malformed
      end
  end.
Proof. reflexivity. Qed.

Lemma continuation_escape b :
  0 <= b < 256 ->
  (if 37 =? 37 then ParseHexOctet (hex_digit (b / 16)) (hex_digit (b mod 16)) else None)
  = Some b.
Proof. intros. by rewrite ParseHexOctet_pct. Qed.

Lemma leading_ones_0 b : 0 <= b < 128 -> leading_ones b = 0%nat.
Proof. intros. rewrite leading_ones_octet by lia. unfold leading_ones_cmp. repeat case_match; lia. Qed.
Lemma leading_ones_2 b : 192 <= b < 224 -> leading_ones b = 2%nat.
Proof. intros. rewrite leading_ones_octet by lia. unfold leading_ones_cmp. repeat case_match; lia. Qed.
Lemma leading_ones_3 b : 224 <= b < 240 -> leading_ones b = 3%nat.
Proof. intros. rewrite leading_ones_octet by lia. unfold leading_ones_cmp. repeat case_match; lia. Qed.
Lemma leading_ones_4 b : 240 <= b < 248 -> leading_ones b = 4%nat.
Proof. intros. rewrite leading_ones_octet by lia. unfold leading_ones_cmp. repeat case_match; lia. Qed.

Lemma utf8_decode_encode_2 cp :
  128 <= cp < 2048 -> utf8_decode [192 + cp / 64; 128 + cp mod 64] = Some cp.
Proof. intros. rewrite utf8_decode_2 by divmod. f_equal. divmod. Qed.

Lemma utf8_decode_encode_3 cp :
  2048 <= cp < 65536 -> ¬ (55296 <= cp <= 57343) ->
  utf8_decode [224 + cp / 4096; 128 + (cp / 64) mod 64; 128 + cp mod 64] = Some cp.
Proof. intros. rewrite utf8_decode_3 by divmod. f_equal. divmod. Qed.

Lemma utf8_decode_encode_4 cp :
  65536 <= cp <= 1114111 ->
  utf8_decode [240 + cp / 262144; 128 + (cp / 4096) mod 64;
               128 + (cp / 64) mod 64; 128 + cp mod 64] = Some cp.
Proof. intros. rewrite utf8_decode_4 by divmod. f_equal. divmod. Qed.

(** Decoding the escapes of one encoded code point. *)
Lemma decode_code_point cp e :
  0 <= cp <= 1114111 -> ¬ (55296 <= cp <= 57343) ->
  decode (pct_escapes (utf8_encode cp) ++ e)
  = app (utf16_encode_code_point cp) <$> decode e.
Proof.
  intros Hcp Hsur.
  destruct (Z.lt_ge_cases cp 128) as [H1|H1];
  [|destruct (Z.lt_ge_cases cp 2048) as [H2|H2];
    [|destruct (Z.lt_ge_cases cp 65536) as [H3|H3]]].
  - rewrite utf8_encode_1 by done.
    cbn [pct_escapes map concat app pct_escape].
    rewrite decode_percent, ParseHexOctet_pct, leading_ones_0 by lia.
    unfold utf16_encode_code_point. case_match; [|lia]. by destruct (decode e).
  - rewrite utf8_encode_2 by lia.
    cbn [pct_escapes map concat app pct_escape].
    rewrite decode_percent, ParseHexOctet_pct, leading_ones_2 by divmod.
    unfold decode_sequence, continuation_octets. cbn [mapM].
    rewrite continuation_escape by divmod. cbn [mbind option_bind mret option_ret].
    rewrite utf8_decode_encode_2 by lia. done.
  - rewrite utf8_encode_3 by lia.
    cbn [pct_escapes map concat app pct_escape].
    rewrite decode_percent, ParseHexOctet_pct, leading_ones_3 by divmod.
    unfold decode_sequence, continuation_octets. cbn [mapM].
    rewrite !continuation_escape by divmod. cbn [mbind option_bind mret option_ret].
    rewrite utf8_decode_encode_3 by (done || lia). done.
  - rewrite utf8_encode_4 by lia.
    cbn [pct_escapes map concat app pct_escape].
    rewrite decode_percent, ParseHexOctet_pct, leading_ones_4 by divmod.
    unfold decode_sequence, continuation_octets. cbn [mapM].
    rewrite !continuation_escape by divmod. cbn [mbind option_bind mret option_ret].
    rewrite utf8_decode_encode_4 by lia. done.
Qed.

(** Induction over a well-formed string, one scalar value at a time. *)
Lemma well_formed_ind (P : jsstring -> Prop) :
  P [] ->
  (forall c rest, 0 <= c < 65536 -> is_lead_surrogate c = false ->
     is_trail_surrogate c = false -> well_formed rest = true -> P rest ->
     P (c :: rest)) ->
  (forall c d rest, is_lead_surrogate c = true -> is_trail_surrogate d = true ->
     well_formed rest = true -> P rest -> P (c :: d :: rest)) ->
  forall s, well_formed s = true -> P s.
Proof.
  intros Hnil Hone Hpair s.
  remember (length s) as n eqn:Hn. revert s Hn.
  induction n as [n IH] using lt_wf_ind. intros s Hn Hwf.
  destruct s as [|c rest]; [done|].
  cbn [well_formed] in Hwf.
  apply andb_true_iff in Hwf as [Hrange Hwf].
  apply andb_true_iff in Hrange as [Hlo Hhi].
  apply Z.leb_le in Hlo. apply Z.ltb_lt in Hhi.
  destruct (is_lead_surrogate c) eqn:Hlead.
  - destruct rest as [|d rest']; [done|].
    apply andb_true_iff in Hwf as [Htrail Hwf].
    apply Hpair; try done.
    apply (IH (length rest')); [simpl in Hn; lia|done|done].
  - apply andb_true_iff in Hwf as [Htrail Hwf].
    apply negb_true_iff in Htrail.
    apply Hone; try done.
    apply (IH (length rest)); [simpl in Hn; lia|done|done].
Qed.

Lemma unescaped_not_percent c : is_unescaped c = true -> c <> 37.
Proof. intros H ->. done. Qed.

Lemma unescaped_not_surrogate c :
  is_unescaped c = true -> is_lead_surrogate c = false /\ is_trail_surrogate c = false.
Proof.
  unfold is_unescaped, is_lead_surrogate, is_trail_surrogate.
  rewrite !orb_true_iff, !andb_true_iff, !andb_false_iff, !Z.leb_le, !Z.leb_gt, !Z.eqb_eq.
  lia.
Qed.

Lemma encode_scalar c rest :
  is_lead_surrogate c = false -> is_trail_surrogate c = false ->
  encode (c :: rest) =
  if is_unescaped c then cons c <$> encode rest
  else app (pct_escapes (utf8_encode c)) <$> encode rest.
Proof. intros Hl Ht. cbn [encode]. by rewrite Hl, Ht. Qed.

Lemma encode_pair c d rest :
  is_lead_surrogate c = true -> is_trail_surrogate d = true ->
  encode (c :: d :: rest) =
  app (pct_escapes (utf8_encode (surrogate_pair_to_code_point c d))) <$> encode rest.
Proof.
  intros Hl Ht. cbn [encode]. rewrite Hl, Ht.
  destruct (is_unescaped c) eqn:Hu; [|done].
  apply unescaped_not_surrogate in Hu as [? _]. congruence.
Qed.

Lemma surrogate_pair_range c d :
  is_lead_surrogate c = true -> is_trail_surrogate d = true ->
  65536 <= surrogate_pair_to_code_point c d <= 1114111 /\
  utf16_encode_code_point (surrogate_pair_to_code_point c d) = [c; d].
Proof.
  unfold is_lead_surrogate, is_trail_surrogate, surrogate_pair_to_code_point,
    utf16_encode_code_point.
  rewrite !andb_true_iff, !Z.leb_le. intros [? ?] [? ?].
  split; [lia|]. case_match eqn:E; [apply Z.leb_le in E; lia|].
  f_equal; [|f_equal]; divmod.
Qed.

Lemma scalar_range c :
  0 <= c < 65536 -> is_lead_surrogate c = false -> is_trail_surrogate c = false ->
  0 <= c <= 1114111 /\ ¬ (55296 <= c <= 57343) /\ utf16_encode_code_point c = [c].
Proof.
  unfold is_lead_surrogate, is_trail_surrogate, utf16_encode_code_point.
  rewrite !andb_false_iff, !Z.leb_gt. intros ? ? ?.
  split; [lia|]. split; [lia|]. case_match eqn:E; [done|apply Z.leb_gt in E; lia].
Qed.

(** [decodeURIComponent] undoes [encodeURIComponent] on every string the
    latter accepts. *)
Lemma decode_encode s :
  well_formed s = true -> exists e, encode s = Ok e /\ decode e = Ok s.
Proof.
  revert s. apply well_formed_ind.
  - by exists [].
  - intros c rest Hc Hl Ht Hwf (e & He & Hd).
    rewrite encode_scalar, He by done.
    destruct (scalar_range c Hc Hl Ht) as (Hr & Hs & Hu).
    destruct (is_unescaped c) eqn:Hun.
    + exists (c :: e). split; [done|].
      rewrite decode_unescaped by by apply unescaped_not_percent.
      by rewrite Hd.
    + eexists. split; [done|].
      rewrite decode_code_point, Hd, Hu by done. done.
  - intros c d rest Hl Ht Hwf (e & He & Hd).
    rewrite encode_pair, He by done.
    destruct (surrogate_pair_range c d Hl Ht) as [Hr Hu].
    eexists. split; [done|].
    rewrite decode_code_point, Hd, Hu by lia. done.
Qed.

(** *** What the encoder writes *)

Lemma utf8_encode_octets cp :
  0 <= cp <= 1114111 -> Forall (fun b => 0 <= b < 256) (utf8_encode cp).
Proof.
  intros Hcp.
  destruct (Z.lt_ge_cases cp 128) as [H1|H1];
  [|destruct (Z.lt_ge_cases cp 2048) as [H2|H2];
    [|destruct (Z.lt_ge_cases cp 65536) as [H3|H3]]].
  - rewrite utf8_encode_1 by done. repeat constructor; lia.
  - rewrite utf8_encode_2 by lia. repeat constructor; divmod.
  - rewrite utf8_encode_3 by lia. repeat constructor; divmod.
  - rewrite utf8_encode_4 by lia. repeat constructor; divmod.
Qed.

Lemma pct_escapes_query_safe octets :
  Forall (fun b => 0 <= b < 256) octets ->
  forallb is_query_safe (pct_escapes octets) = true.
Proof.
  induction 1 as [|b octets Hb _ IH]; [done|].
  change (pct_escapes (b :: octets)) with (pct_escape b ++ pct_escapes octets).
  rewrite forallb_app, IH.
  cbn [pct_escape forallb]. unfold is_query_safe at 2 3.
  rewrite !hex_digit_unescaped by divmod. done.
Qed.

Lemma encode_query_safe s enc :
  well_formed s = true -> encode s = Ok enc ->
  forallb is_query_safe enc = true.
Proof.
  intros Hwf. revert s Hwf enc. apply (well_formed_ind
    (fun s => forall enc, encode s = Ok enc -> forallb is_query_safe enc = true)).
  - by intros enc [= <-].
  - intros c rest Hc Hl Ht Hwf IH enc.
    rewrite encode_scalar by done.
    destruct (scalar_range c Hc Hl Ht) as (Hr & _ & _).
    destruct (is_unescaped c) eqn:Hun.
    + destruct (encode rest) as [e|]; [|done]. intros [= <-].
      cbn [forallb]. unfold is_query_safe at 1. rewrite Hun. by apply IH.
    + destruct (encode rest) as [e|]; [|done]. intros [= <-].
      rewrite forallb_app, pct_escapes_query_safe by by apply utf8_encode_octets.
      by apply IH.
  - intros c d rest Hl Ht Hwf IH enc.
    rewrite encode_pair by done.
    destruct (surrogate_pair_range c d Hl Ht) as [Hr _].
    destruct (encode rest) as [e|]; [|done]. intros [= <-].
    rewrite forallb_app, pct_escapes_query_safe
      by (apply utf8_encode_octets; lia).
    by apply IH.
Qed.

Lemma query_safe_not_delimiter c :
  is_query_safe c = true -> c ∉ query_delimiters.
Proof.
  intros Hc Hin. unfold query_delimiters in Hin. cbn in Hin.
  repeat (apply elem_of_cons in Hin as [->|Hin]; [by vm_compute in Hc|]).
  by apply elem_of_nil in Hin.
Qed.

(** [encodeURIComponent] throws exactly on the strings with an unpaired
    surrogate, among the sequences of code units. *)
Lemma encode_Ok_well_formed s enc :
  Forall is_code_unit s -> encode s = Ok enc -> well_formed s = true.
Proof.
  remember (length s) as n eqn:Hn. revert s enc Hn.
  induction n as [n IH] using lt_wf_ind. intros s enc Hn Hs.
  destruct s as [|c rest]; [done|].
  apply Forall_cons in Hs as [Hc Hrest]. unfold is_code_unit in Hc.
  cbn [encode well_formed].
  assert ((0 <=? c) && (c <? 65536) = true) as ->
    by (apply andb_true_iff; split; [apply Z.leb_le|apply Z.ltb_lt]; lia).
  cbn [andb].
  destruct (is_unescaped c) eqn:Hun.
  - apply unescaped_not_surrogate in Hun as [-> ->]. cbn [negb andb].
    destruct (encode rest) as [e|] eqn:He; [|done]. intros _.
    apply (IH (length rest)) with e; [simpl in Hn; lia|done|done|done].
  - destruct (is_lead_surrogate c).
    + destruct rest as [|d rest']; [done|].
      apply Forall_cons in Hrest as [_ Hrest'].
      destruct (is_trail_surrogate d); [|done]. cbn [andb].
      destruct (encode rest') as [e|] eqn:He; [|done]. intros _.
      apply (IH (length rest')) with e; [simpl in Hn; lia|done|done|done].
    + destruct (is_trail_surrogate c); [done|]. cbn [negb andb].
      destruct (encode rest) as [e|] eqn:He; [|done]. intros _.
      apply (IH (length rest)) with e; [simpl in Hn; lia|done|done|done].
Qed.

Example encodeURIComponent_about :
  encodeURIComponent (js "https://example.com/about")
  = Ok (js "https%3A%2F%2Fexample.com%2Fabout").
Proof. reflexivity. Qed.

(** U+1F600 (a surrogate pair), U+00E9 and U+20AC. *)
Example encodeURIComponent_non_ascii :
  encodeURIComponent [55357; 56832; 233; 8364]
  = Ok (js "%F0%9F%98%80%C3%A9%E2%82%AC").
Proof. reflexivity. Qed.

Example encodeURIComponent_lone_surrogate :
  encodeURIComponent [104; 55357; 105] = Throw URI_malformed.
Proof. reflexivity. Qed.

(** Lower-case escapes decode; over-long forms and encoded surrogates do
    not. *)
Example decodeURIComponent_examples :
  decodeURIComponent (js "a%2fb%F0%9f%98%80") = Ok [97; 47; 98; 55357; 56832] /\
  decodeURIComponent (js "%C0%80") = Throw URI_malformed /\
  decodeURIComponent (js "%ED%A0%80") = Throw URI_malformed /\
  decodeURIComponent (js "%E2%82") = Throw URI_malformed /\
  decodeURIComponent (js "100%") = Throw URI_malformed.
Proof. repeat split; reflexivity. Qed.

(** ** The exception monad *)

Lemma bind_Ok {A B} (m : result A) (k : A -> result B) (b : B) :
  m ≫= k = Ok b <-> exists a, m = Ok a /\ k a = Ok b.
Proof.
  destruct m as [a|e]; cbn.
  - split; [by exists a|]. by intros (? & [= <-] & ?).
  - split; [done|]. by intros (? & ? & ?).
Qed.

Lemma fmap_Ok {A B} (f : A -> B) (m : result A) (b : B) :
  f <$> m = Ok b <-> exists a, m = Ok a /\ b = f a.
Proof.
  destruct m as [a|e]; cbn.
  - split; [intros [= <-]; by exists a|]. by intros (? & [= <-] & ->).
  - split; [done|]. by intros (? & ? & ?).
Qed.

Ltac inv_Ok :=
  repeat match goal with
  | H : _ ≫= _ = Ok _ |- _ => apply bind_Ok in H as (? & ? & H)
  | H : Ok _ = Ok _ |- _ => injection H as H; try subst
  | H : Throw _ = Ok _ |- _ => discriminate H
  end.

(** ** Walks over lists and trees *)

Lemma forEach_cons {A B} (f : A -> result B) x l :
  forEach f (x :: l) = y ← f x; ys ← forEach f l; Ok (y :: ys).
Proof. reflexivity. Qed.

Lemma forEach_Ok {A B} (f : A -> result B) l l' :
  forEach f l = Ok l' <-> Forall2 (fun x y => f x = Ok y) l l'.
Proof.
  revert l'. induction l as [|x l IH]; intros l'.
  - cbn. split; [intros [= <-]; constructor|]. by inversion 1.
  - rewrite forEach_cons, bind_Ok. split.
    + intros (y & Hy & H). apply bind_Ok in H as (ys & Hys & [= <-]).
      constructor; [done|]. by apply IH.
    + inversion 1 as [|? y ? ys Hy Hys]; subst.
      exists y. split; [done|]. apply bind_Ok. exists ys.
      split; [by apply IH|done].
Qed.

Lemma forEach_app {A B} (f : A -> result B) l1 l2 :
  forEach f (l1 ++ l2) = ys1 ← forEach f l1; ys2 ← forEach f l2; Ok (ys1 ++ ys2).
Proof.
  induction l1 as [|x l1 IH]; cbn [app].
  - cbn. by destruct (forEach f l2).
  - rewrite !forEach_cons, IH. destruct (f x); [|done]. cbn.
    destruct (forEach f l1); [|done]. cbn. by destruct (forEach f l2).
Qed.

(** Induction over a tree, with the hypothesis on every child. *)
Lemma node_tree_ind (P : node -> Prop) :
  (forall el children, Forall P children -> P (Element el children)) ->
  (forall el content, P (Template el content)) ->
  (forall data, P (Text data)) ->
  (forall data, P (Comment data)) ->
  forall n, P n.
Proof.
  intros HE HP HT HC.
  fix IH 1. intros [el children|el content|data|data];
    [|apply HP|apply HT|apply HC].
  apply HE. induction children as [|c children IHc]; constructor; [apply IH|apply IHc].
Qed.

Lemma forEach_element_Element h el children :
  forEach_element h (Element el children) =
  el' ← h el; children' ← forEach (forEach_element h) children;
  Ok (Element el' children').
Proof. reflexivity. Qed.

Lemma forEach_element_Ok h el children r :
  forEach_element h (Element el children) = Ok r <->
  exists el' children',
    r = Element el' children' /\ h el = Ok el' /\
    Forall2 (fun c c' => forEach_element h c = Ok c') children children'.
Proof.
  rewrite forEach_element_Element, bind_Ok. split.
  - intros (el' & Hel & H). apply bind_Ok in H as (ch' & Hch & [= <-]).
    exists el', ch'. by rewrite <- forEach_Ok.
  - intros (el' & ch' & -> & Hel & Hch). exists el'. split; [done|].
    apply bind_Ok. exists ch'. by rewrite forEach_Ok.
Qed.

(** Two walks in a row succeed exactly when the single walk with both
    callbacks in a row does, and they build the same tree. *)
Lemma forEach_element_fuse h1 h2 n r :
  (forEach_element h1 n ≫= forEach_element h2) = Ok r <->
  forEach_element (fun el => h1 el ≫= h2) n = Ok r.
Proof.
  revert r. induction n as [el children IH|el content|data|data] using node_tree_ind;
    intros r; [|cbn; by destruct (h1 el)|done|done].
  rewrite bind_Ok. split.
  - intros (n1 & Hn1 & Hr).
    apply forEach_element_Ok in Hn1 as (el1 & ch1 & -> & Hel1 & Hch1).
    apply forEach_element_Ok in Hr as (el2 & ch2 & -> & Hel2 & Hch2).
    apply forEach_element_Ok.
    exists el2, ch2. split; [done|]. split; [by rewrite Hel1|].
    clear Hel1 Hel2. revert ch1 ch2 Hch1 Hch2.
    induction IH as [|c children IHc _ IHl]; intros ch1 ch2 Hch1 Hch2.
    + inversion Hch1; subst. inversion Hch2; subst. constructor.
    + inversion Hch1 as [|? c1 ? ch1' Hc1 Hch1']; subst.
      inversion Hch2 as [|? c2 ? ch2' Hc2 Hch2']; subst.
      constructor; [|by eapply IHl].
      apply IHc. by rewrite Hc1.
  - intros (el2 & ch2 & -> & Hel & Hch)%forEach_element_Ok.
    apply bind_Ok in Hel as (el1 & Hel1 & Hel2).
    assert (exists ch1,
      Forall2 (fun c c' => forEach_element h1 c = Ok c') children ch1 /\
      Forall2 (fun c c' => forEach_element h2 c = Ok c') ch1 ch2) as (ch1 & H1 & H2).
    { clear Hel1 Hel2. revert ch2 Hch.
      induction IH as [|c children IHc _ IHl]; intros ch2 Hch.
      - inversion Hch; subst. exists []. split; constructor.
      - inversion Hch as [|? c2 ? ch2' Hc2 Hch2']; subst.
        apply IHc, bind_Ok in Hc2 as (c1 & Hc1 & Hc2).
        destruct (IHl _ Hch2') as (ch1 & H1 & H2).
        exists (c1 :: ch1). split; by constructor. }
    exists (Element el1 ch1). split; apply forEach_element_Ok.
    + by exists el1, ch1.
    + by exists el2, ch2.
Qed.

(** ** The attribute rewriter *)

Section Rewriter.
Context (W : Platform).

Lemma resolveAbsoluteUrl_cases base maybe :
  (exists u, URL_new W maybe (Some base) = Ok u /\
             resolveAbsoluteUrl W base maybe = Ok (Some (href u))) \/
  (exists e, URL_new W maybe (Some base) = Throw e /\
             resolveAbsoluteUrl W base maybe = Ok None).
Proof.
  unfold resolveAbsoluteUrl. destruct (URL_new W maybe (Some base)) as [u|e].
  - left. by exists u.
  - right. by exists e.
Qed.

Lemma update_attribute_lookup attrs name value :
  lookup_attribute (update_attribute attrs name value) name = Some value.
Proof.
  induction attrs as [|[n v] attrs IH]; cbn.
  - by rewrite bool_decide_eq_true_2.
  - case_bool_decide as Hn; cbn.
    + by rewrite bool_decide_eq_true_2.
    + by rewrite bool_decide_eq_false_2.
Qed.

Lemma update_attribute_lookup_ne attrs name value other :
  other <> name ->
  lookup_attribute (update_attribute attrs name value) other
  = lookup_attribute attrs other.
Proof.
  intros Hne. induction attrs as [|[n v] attrs IH]; cbn.
  - by rewrite bool_decide_eq_false_2.
  - case_bool_decide as Hn; cbn.
    + subst n. by rewrite !bool_decide_eq_false_2.
    + by rewrite IH.
Qed.

Lemma getAttribute_setAttribute el name value :
  getAttribute (setAttribute el name value) name = Some value.
Proof. apply update_attribute_lookup. Qed.

Lemma getAttribute_setAttribute_ne el name value other :
  other <> name ->
  getAttribute (setAttribute el name value) other = getAttribute el other.
Proof. apply update_attribute_lookup_ne. Qed.

Lemma rewriteAttr_localName base el attr el' :
  rewriteAttr W base el attr = Ok el' -> localName el' = localName el.
Proof.
  unfold rewriteAttr. intros H.
  repeat (case_match; inv_Ok; try done).
Qed.

Lemma rewriteAttr_absent base el attr :
  getAttribute el attr = None -> rewriteAttr W base el attr = Ok el.
Proof. unfold rewriteAttr. by intros ->. Qed.

Lemma rewriteAttr_empty base el attr :
  getAttribute el attr = Some [] -> rewriteAttr W base el attr = Ok el.
Proof. unfold rewriteAttr. by intros ->. Qed.

Lemma rewriteAttr_unresolved base el attr val :
  getAttribute el attr = Some val ->
  resolveAbsoluteUrl W base val = Ok None ->
  rewriteAttr W base el attr = Ok el.
Proof.
  unfold rewriteAttr. intros -> Hres. destruct (truthy val); [|done].
  cbn. by rewrite Hres.
Qed.

Lemma rewriteAttr_script_or_data base el attr val :
  getAttribute el attr = Some val ->
  is_script_or_data val = true ->
  rewriteAttr W base el attr = Ok el.
Proof.
  unfold rewriteAttr. intros -> Hskip. destruct (truthy val); [|done]. cbn.
  destruct (resolveAbsoluteUrl_cases base val) as [(u & _ & ->)|(e & _ & ->)]; cbn.
  - rewrite Hskip. by destruct (truthy (href u)).
  - done.
Qed.

Lemma rewriteAttr_proxied base el attr val abs :
  getAttribute el attr = Some val ->
  val <> [] ->
  resolveAbsoluteUrl W base val = Ok (Some abs) ->
  abs <> [] ->
  is_script_or_data val = false ->
  forall enc, encodeURIComponent abs = Ok enc ->
  rewriteAttr W base el attr = Ok (setAttribute el attr (proxy_path ++ enc)).
Proof.
  unfold rewriteAttr. intros -> Hval Hres Habs Hskip enc Henc.
  assert (truthy val = true) as -> by by destruct val.
  rewrite Hres. cbn [mbind result_bind negb].
  assert (truthy abs = true) as -> by by destruct abs.
  rewrite Hskip. cbn [negb]. by rewrite Henc.
Qed.

Lemma rewrite_selected_miss base tag attr el :
  localName el <> tag -> rewrite_selected W base tag attr el = Ok el.
Proof.
  intros Hne. unfold rewrite_selected, element_matches.
  by rewrite bool_decide_eq_false_2.
Qed.

Lemma rewrite_selected_hit base tag attr el :
  localName el = tag ->
  rewrite_selected W base tag attr el = rewriteAttr W base el attr.
Proof.
  intros Heq. unfold rewrite_selected, element_matches.
  rewrite bool_decide_eq_true_2 by done. cbn.
  destruct (getAttribute el attr) eqn:Hget; [done|].
  by rewrite rewriteAttr_absent.
Qed.

Ltac tag_differs :=
  first
    [ assumption
    | repeat match goal with H : localName _ = _ |- _ => rewrite H end;
      let E := fresh in vm_compute; intros E; discriminate E ].

Lemma rewrite_element_target base el :
  rewrite_element W base el =
  match target_attribute (localName el) with
  | Some attr => rewriteAttr W base el attr
  | None => Ok el
  end.
Proof.
  unfold rewrite_element, target_attribute.
  repeat case_decide;
    repeat first
      [ rewrite rewrite_selected_miss by tag_differs; cbn [mbind result_bind]
      | rewrite rewrite_selected_hit by done ];
    try done.
  all: match goal with
    | |- context [rewriteAttr ?w ?b ?e ?a] =>
        destruct (rewriteAttr w b e a) as [el'|] eqn:Hrw; [|done];
        cbn [mbind result_bind];
        apply rewriteAttr_localName in Hrw
    end.
  all: repeat (rewrite rewrite_selected_miss by tag_differs;
               cbn [mbind result_bind]).
  all: done.
Qed.

Lemma bind_Ok_ext {A B} (m : result A) (k k' : A -> result B) r :
  (forall a r, k a = Ok r <-> k' a = Ok r) ->
  m ≫= k = Ok r <-> m ≫= k' = Ok r.
Proof. intros Hk. destruct m; cbn; [apply Hk|done]. Qed.

(** The five walks build the tree that one walk with [rewrite_element]
    builds. *)
Lemma rewrite_links_fused base n r :
  rewrite_links W base n = Ok r <->
  forEach_element (rewrite_element W base) n = Ok r.
Proof.
  unfold rewrite_links, forEach_selected, rewrite_element.
  rewrite <- forEach_element_fuse. apply bind_Ok_ext. clear n r. intros n r.
  rewrite <- forEach_element_fuse. apply bind_Ok_ext. clear n r. intros n r.
  rewrite <- forEach_element_fuse. apply bind_Ok_ext. clear n r. intros n r.
  rewrite <- forEach_element_fuse. done.
Qed.

Lemma rewrite_links_Element base el children r :
  rewrite_links W base (Element el children) = Ok r <->
  exists el' children',
    r = Element el' children' /\
    rewrite_element W base el = Ok el' /\
    Forall2 (fun c c' => rewrite_links W base c = Ok c') children children'.
Proof.
  rewrite rewrite_links_fused, forEach_element_Ok.
  assert (forall l l',
    Forall2 (fun c c' => forEach_element (rewrite_element W base) c = Ok c') l l' <->
    Forall2 (fun c c' => rewrite_links W base c = Ok c') l l') as Hl.
  { intros l l'. split; intros H; eapply Forall2_impl; try exact H;
      intros c c'; by rewrite rewrite_links_fused. }
  split; intros (el' & ch' & ? & ? & ?); exists el', ch'; by rewrite ?Hl in *.
Qed.

Lemma rewrite_links_leaf base n :
  elements n = [] -> rewrite_links W base n = Ok n.
Proof. by destruct n. Qed.

End Rewriter.

(** ** Removing the policy [meta] elements *)

Lemma remove_selected_Element sel el children :
  remove_selected sel (Element el children) =
  Element el
    (map (remove_selected sel)
       (List.filter (fun c => negb (matches sel c)) children)).
Proof.
  cbn [remove_selected]. f_equal.
  induction children as [|c children IH]; [done|].
  cbn [List.filter]. destruct (matches sel c); cbn [negb map]; by rewrite IH.
Qed.


Lemma Forall_flat_map {A B} (P : B -> Prop) (f : A -> list B) l :
  Forall P (flat_map f l) <-> Forall (fun x => Forall P (f x)) l.
Proof.
  induction l as [|x l IH]; cbn [flat_map].
  - split; constructor.
  - rewrite Forall_app, IH, Forall_cons. done.
Qed.







Lemma eqb_ci_refl s : eqb_ci s s = true.
Proof. induction s as [|c s IH]; [done|]. cbn. by rewrite Z.eqb_refl. Qed.


Section Document.
Context (W : Platform).

Lemma rewrite_links_root base doc root :
  rewrite_links W base (documentElement doc) = Ok root ->
  exists el' children',
    root = Element el' children' /\ localName el' = js "html" /\
    attributes el' = root_attributes doc /\
    Forall2 (fun c c' => rewrite_links W base c = Ok c')
      (root_childNodes doc) children'.
Proof.
  unfold documentElement.
  intros (el' & ch' & -> & Hel & Hch)%rewrite_links_Element.
  rewrite rewrite_element_target in Hel. cbn in Hel. injection Hel as <-.
  by exists (mkElement (js "html") (root_attributes doc)), ch'.
Qed.



End Document.

(** ** The rewriter returns *)

Lemma forEach_element_total h :
  (forall el, exists el', h el = Ok el') ->
  forall n, exists r, forEach_element h n = Ok r.
Proof.
  intros Hh n. induction n as [el children IH|el content|data|data] using node_tree_ind;
    [|destruct (Hh el) as [el' Hel]; cbn; rewrite Hel; by eexists
     |by eexists..].
  destruct (Hh el) as [el' Hel].
  assert (exists children',
    Forall2 (fun c c' => forEach_element h c = Ok c') children children')
    as [children' Hch].
  { induction IH as [|c children [c' Hc] _ [children' Hch]].
    - exists []. constructor.
    - exists (c' :: children'). by constructor. }
  exists (Element el' children'). apply forEach_element_Ok.
  by exists el', children'.
Qed.

Section Total.
Context (W : Platform) (HW : URL_conforms W).

Lemma rewriteAttr_total base el attr :
  exists el', rewriteAttr W base el attr = Ok el'.
Proof.
  unfold rewriteAttr.
  destruct (getAttribute el attr) as [val|]; [|by eexists].
  destruct (truthy val); cbn [negb]; [|by eexists].
  destruct (resolveAbsoluteUrl_cases W base val)
    as [(u & Hu & ->)|(e & _ & ->)]; cbn [mbind result_bind]; [|by eexists].
  destruct (truthy (href u)); cbn [negb]; [|by eexists].
  destruct (is_script_or_data val); [by eexists|].
  destruct (decode_encode (href u)) as (enc & Henc & _); [by eapply HW|].
  unfold encodeURIComponent. rewrite Henc. by eexists.
Qed.

Lemma rewrite_element_total base el :
  exists el', rewrite_element W base el = Ok el'.
Proof.
  rewrite rewrite_element_target.
  destruct (target_attribute (localName el)); [apply rewriteAttr_total|by eexists].
Qed.

Lemma rewrite_links_total base n : exists r, rewrite_links W base n = Ok r.
Proof.
  destruct (forEach_element_total (rewrite_element W base)
              (rewrite_element_total base) n) as [r Hr].
  exists r. by apply rewrite_links_fused.
Qed.

Lemma rewrite_document_total base doc :
  exists root, rewrite_document W base doc = Ok root.
Proof.
  unfold rewrite_document.
  destruct (rewrite_links_total base (documentElement doc)) as [r ->].
  by eexists.
Qed.

End Total.

(** ** The handler *)

Section Handler.
Context (W : Platform).

Lemma handle_missing q :
  q = None \/ q = Some [] ->
  handle W q = (Some (mkResponseOut 400 [] (Str (js "missing url"))), []).
Proof. by intros [->| ->]. Qed.

Lemma handle_invalid target e :
  target <> [] -> URL_new W target None = Throw e ->
  handle W (Some target)
  = (Some (mkResponseOut 400 [] (Str (js "invalid url"))), []).
Proof.
  intros Ht Hu. unfold handle, proxy_backend.
  assert (truthy target = true) as -> by by destruct target.
  by rewrite Hu.
Qed.

Lemma handle_forbidden target parsed :
  target <> [] -> URL_new W target None = Ok parsed ->
  isAllowedHost W (hostname parsed) = false ->
  handle W (Some target)
  = (Some (mkResponseOut 403 [] (Str (js "host not allowed"))), []).
Proof.
  intros Ht Hu Hh. unfold handle, proxy_backend.
  assert (truthy target = true) as -> by by destruct target.
  rewrite Hu. cbn. by rewrite Hh.
Qed.

(** Past the checks, the response is what the [try] block builds, or the
    502 of the [catch]; the one fetch made is for the target. *)
Lemma handle_allowed target parsed :
  target <> [] -> URL_new W target None = Ok parsed ->
  isAllowedHost W (hostname parsed) = true ->
  handle W (Some target) =
  (Some match (proxy_try W target []).1 with
        | Ok r => r
        | Throw err => bad_gateway err
        end, [target]).
Proof.
  intros Ht Hu Hh. unfold handle, proxy_backend.
  assert (truthy target = true) as -> by by destruct target.
  rewrite Hu. cbn [try_catch fmap result_fmap negb]. rewrite Hh. cbn [negb].
  unfold io_try, proxy_try, mbind, io_mbind, io_bind, io_fetch, io_lift, mret, io_mret, io_ret.
  cbn [app].
  destruct (fetch W target) as [up|e]; cbn; [|done].
  destruct (includes _ _).
  - destruct (text up); cbn; [|done].
    destruct (rewriteHtml W target _); cbn; done.
  - destruct (arrayBuffer up); cbn; done.
Qed.

Lemma proxy_try_result target :
  (proxy_try W target []).1 =
  (upstream ← fetch W target;
   let contentType :=
     or_else (content_type upstream) (js "application/octet-stream") in
   if includes contentType (js "text/html") then
     body ← text upstream;
     body ← rewriteHtml W target (DOMPurify_sanitize W body);
     Ok (mkResponseOut 200
           [(js "Content-Type", js "text/html; charset=utf-8");
            (js "X-Frame-Options", js "SAMEORIGIN")]
           (Str body))
   else
     buffer ← arrayBuffer upstream;
     Ok (mkResponseOut 200 [(js "Content-Type", contentType)] (Buf buffer))).
Proof.
  unfold proxy_try, mbind at 1, io_mbind, io_bind, io_fetch.
  destruct (fetch W target) as [up|e]; cbn; [|done].
  destruct (includes _ _).
  - unfold mbind, io_mbind, io_bind, io_lift, mret, io_mret, io_ret.
    destruct (text up); cbn; [|done].
    destruct (rewriteHtml W target _); cbn; done.
  - unfold mbind, io_mbind, io_bind, io_lift, mret, io_mret, io_ret.
    destruct (arrayBuffer up); cbn; done.
Qed.

End Handler.

(** * The properties the specification states *)

(** ** The allowlist *)

Lemma Array_includes_elem_of l x : Array_includes l x = true <-> x ∈ l.
Proof.
  unfold Array_includes. rewrite existsb_exists. split.
  - intros (y & Hin & Hy). apply bool_decide_eq_true in Hy as ->.
    by apply list_elem_of_In.
  - intros Hin. exists x. split; [by apply list_elem_of_In|].
    by apply bool_decide_eq_true.
Qed.

(** The allowlist holds the non-empty pieces between the commas of the
    environment variable. *)
Lemma ALLOWED_HOSTS_elem_of W h :
  h ∈ ALLOWED_HOSTS W <->
  h <> [] /\ h ∈ split 44 (or_else (env_ALLOWED_HOSTS W) []).
Proof.
  unfold ALLOWED_HOSTS. rewrite !list_elem_of_In, filter_In.
  split.
  - intros [Hin Hh]. split; [by destruct h|done].
  - intros [Hh Hin]. split; [done|by destruct h].
Qed.

(** C5.  For every hostname: with an empty allowlist [isAllowedHost] returns
    true; with a non-empty allowlist it returns true exactly when the
    hostname is a member of the allowlist, two strings being the same member
    only when they are equal code unit for code unit (no case folding, no
    wildcard, no subdomain matching). *)
Theorem isAllowedHost_exact_member (W : Platform) (hostname : jsstring) :
  (ALLOWED_HOSTS W = [] -> isAllowedHost W hostname = true) /\
  (ALLOWED_HOSTS W <> [] ->
   (isAllowedHost W hostname = true <-> hostname ∈ ALLOWED_HOSTS W)).
Proof.
  unfold isAllowedHost. split.
  - by intros ->.
  - intros Hne. destruct (ALLOWED_HOSTS W) as [|h hosts] eqn:Hhosts; [done|].
    cbn [length Nat.eqb]. apply Array_includes_elem_of.
Qed.

Example isAllowedHost_examples :
  ALLOWED_HOSTS Sample.closed_platform = [js "example.com"; js "old.example"] /\
  isAllowedHost Sample.closed_platform (js "example.com") = true /\
  isAllowedHost Sample.closed_platform (js "evil.com") = false /\
  isAllowedHost Sample.closed_platform (js "Example.com") = false /\
  isAllowedHost Sample.closed_platform (js "www.example.com") = false /\
  ALLOWED_HOSTS Sample.open_platform = [] /\
  isAllowedHost Sample.open_platform (js "evil.example") = true.
Proof. repeat split; reflexivity. Qed.

(** An entry with a star is a name like any other. *)
Example isAllowedHost_no_wildcard :
  isAllowedHost
    (mkPlatform Sample.URL_new Sample.JSDOM_new serialize (fun html => html)
       Sample.fetch (Some (js "*.example.com,,")))
    (js "www.example.com") = false.
Proof. reflexivity. Qed.

(** ** Link rewriting *)

Lemma target_attribute_link_targets tag attr :
  (tag, attr) ∈ link_targets <-> target_attribute tag = Some attr.
Proof.
  unfold link_targets, target_attribute. split.
  - intros Hin.
    repeat (apply elem_of_cons in Hin as [[= -> ->]|Hin]; [done|]).
    by apply elem_of_nil in Hin.
  - repeat case_decide; intros [= <-]; subst tag;
      repeat first [ by apply list_elem_of_here | apply list_elem_of_further ].
Qed.

Example is_script_or_data_examples :
  is_script_or_data (js "javascript:alert(1)") = true /\
  is_script_or_data ([32; 9; 10; 160; 65279] ++ js "JaVaScRiPt:alert(1)") = true /\
  is_script_or_data (js "DATA:text/html,hi") = true /\
  is_script_or_data (js "javascript") = false /\
  is_script_or_data (js "x javascript:alert(1)") = false /\
  is_script_or_data ([1] ++ js "javascript:alert(1)") = false /\
  is_script_or_data (js "https://example.com/data:") = false /\
  is_script_or_data [] = false.
Proof. repeat split; reflexivity. Qed.

Section LinkRewriting.
Context (W : Platform).

Lemma rewrite_element_targeted base el attr :
  (localName el, attr) ∈ link_targets ->
  rewrite_element W base el = rewriteAttr W base el attr.
Proof.
  intros Hin%target_attribute_link_targets.
  by rewrite rewrite_element_target, Hin.
Qed.

(** An element the rewriter leaves as it is takes no part in the fate of
    the walk: the tree is rebuilt around it from what the walk makes of the
    rest. *)
Lemma rewrite_links_around base parent before el children after r :
  rewrite_element W base el = Ok el ->
  rewrite_links W base
    (Element parent (before ++ Element el children :: after)) = Ok r <->
  exists parent' before' children' after',
    r = Element parent' (before' ++ Element el children' :: after') /\
    rewrite_element W base parent = Ok parent' /\
    Forall2 (fun c c' => rewrite_links W base c = Ok c') before before' /\
    Forall2 (fun c c' => rewrite_links W base c = Ok c') children children' /\
    Forall2 (fun c c' => rewrite_links W base c = Ok c') after after'.
Proof.
  intros Hel. rewrite rewrite_links_Element. split.
  - intros (parent' & l' & -> & Hp & Hl).
    apply Forall2_app_inv_l in Hl as (before' & rest' & Hb & Hrest & ->).
    apply Forall2_cons_inv_l in Hrest as (n' & after' & Hn & Ha & ->).
    apply rewrite_links_Element in Hn as (el' & children' & -> & Hel' & Hc).
    rewrite Hel in Hel'. injection Hel' as <-.
    by exists parent', before', children', after'.
  - intros (parent' & before' & children' & after' & -> & Hp & Hb & Hc & Ha).
    exists parent', (before' ++ Element el children' :: after').
    split; [done|]. split; [done|].
    apply Forall2_app; [done|]. constructor; [|done].
    apply rewrite_links_Element. by exists el, children'.
Qed.

(** C2.  An attribute value that matches [/^\s*(javascript|data):/i] is left
    as it is: [rewriteAttr] returns the element unchanged, and so does the
    rewriter on an element of each of the five targeted pairs; in the
    rewritten tree the element stands with the attributes it had, whatever
    its children and the nodes around it become. *)
Theorem script_and_data_values_left_alone
    (base : jsstring) (el : element) (attr val : jsstring) :
  getAttribute el attr = Some val ->
  is_script_or_data val = true ->
  rewriteAttr W base el attr = Ok el /\
  ((localName el, attr) ∈ link_targets ->
   rewrite_element W base el = Ok el /\
   forall children r,
     rewrite_links W base (Element el children) = Ok r <->
     exists children',
       r = Element el children' /\
       Forall2 (fun c c' => rewrite_links W base c = Ok c') children children').
Proof.
  intros Hget Hskip.
  pose proof (rewriteAttr_script_or_data W base el attr val Hget Hskip) as Hrw.
  split; [done|]. intros Hin.
  assert (rewrite_element W base el = Ok el) as Hel
    by by rewrite (rewrite_element_targeted base el attr Hin).
  split; [done|]. intros children r. rewrite rewrite_links_Element. split.
  - intros (el' & children' & -> & Hel' & Hc).
    rewrite Hel in Hel'. injection Hel' as <-. by exists children'.
  - intros (children' & -> & Hc). by exists el, children'.
Qed.

(** C7.  [resolveAbsoluteUrl] never throws, and it returns null exactly when
    the [URL] constructor throws.  When it returns null for the value of an
    attribute, [rewriteAttr] returns the element unchanged, and the walk
    goes on: around an element of a targeted pair whose value does not
    resolve, the parent, the siblings before and after it and its own
    children are rewritten as they would be on their own, and the walk
    returns a tree exactly when it does for them. *)
Theorem unresolved_reference_left_alone (base maybe : jsstring) :
  (exists v, resolveAbsoluteUrl W base maybe = Ok v) /\
  (resolveAbsoluteUrl W base maybe = Ok None <->
   exists e, URL_new W maybe (Some base) = Throw e) /\
  (resolveAbsoluteUrl W base maybe = Ok None ->
   forall el attr,
     getAttribute el attr = Some maybe ->
     rewriteAttr W base el attr = Ok el /\
     ((localName el, attr) ∈ link_targets ->
      forall parent before children after r,
        rewrite_links W base
          (Element parent (before ++ Element el children :: after)) = Ok r <->
        exists parent' before' children' after',
          r = Element parent' (before' ++ Element el children' :: after') /\
          rewrite_element W base parent = Ok parent' /\
          Forall2 (fun c c' => rewrite_links W base c = Ok c') before before' /\
          Forall2 (fun c c' => rewrite_links W base c = Ok c') children children' /\
          Forall2 (fun c c' => rewrite_links W base c = Ok c') after after')).
Proof.
  split; [|split].
  - destruct (resolveAbsoluteUrl_cases W base maybe)
      as [(u & _ & ->)|(e & _ & ->)]; by eexists.
  - destruct (resolveAbsoluteUrl_cases W base maybe)
      as [(u & Hu & ->)|(e & He & ->)].
    + split; [done|]. intros [e He]. congruence.
    + split; [by exists e|done].
  - intros Hnull el attr Hget.
    pose proof (rewriteAttr_unresolved W base el attr maybe Hget Hnull) as Hrw.
    split; [done|]. intros Hin parent before children after r.
    apply rewrite_links_around.
    by rewrite (rewrite_element_targeted base el attr Hin).
Qed.

(** C1, as amended.  For a non-empty attribute value that does not match
    the [javascript:]/[data:] pattern and resolves against the base to the
    absolute URL [abs] (a non-empty string without unpaired surrogates, as
    the serialisation of a URL is), [rewriteAttr] sets the attribute to
    ["/proxy_backend?url="] followed by [encodeURIComponent(abs)]; the
    encoded part holds unescaped characters and percent signs only, so none
    of the query delimiters, and [decodeURIComponent] gives [abs] back.  The
    rewriter does the same on an element of each of the five pairs. *)
Theorem resolved_reference_proxied
    (base : jsstring) (el : element) (attr val abs : jsstring) :
  getAttribute el attr = Some val ->
  val <> [] ->
  is_script_or_data val = false ->
  resolveAbsoluteUrl W base val = Ok (Some abs) ->
  abs <> [] ->
  well_formed abs = true ->
  exists enc,
    encodeURIComponent abs = Ok enc /\
    rewriteAttr W base el attr = Ok (setAttribute el attr (proxy_path ++ enc)) /\
    getAttribute (setAttribute el attr (proxy_path ++ enc)) attr
      = Some (proxy_path ++ enc) /\
    forallb is_query_safe enc = true /\
    (forall c, c ∈ enc -> c ∉ query_delimiters) /\
    decodeURIComponent enc = Ok abs /\
    ((localName el, attr) ∈ link_targets ->
     rewrite_element W base el
       = Ok (setAttribute el attr (proxy_path ++ enc))).
Proof.
  intros Hget Hval Hskip Hres Habs Hwf.
  destruct (decode_encode abs Hwf) as (enc & Henc & Hdec).
  pose proof (encode_query_safe abs enc Hwf Henc) as Hsafe.
  pose proof (rewriteAttr_proxied W base el attr val abs
                Hget Hval Hres Habs Hskip enc Henc) as Hrw.
  exists enc. repeat split; try done.
  - apply getAttribute_setAttribute.
  - intros c Hc. apply query_safe_not_delimiter.
    rewrite forallb_forall in Hsafe. by apply Hsafe, list_elem_of_In.
  - intros Hin. by rewrite (rewrite_element_targeted base el attr Hin).
Qed.

End LinkRewriting.

(** ** The rewritten document *)

Section RewrittenDocument.
Context (W : Platform).

Lemma rewrite_document_root base doc root :
  rewrite_document W base doc = Ok root ->
  exists el children,
    root = Element el children /\ localName el = js "html" /\
    attributes el = root_attributes doc.
Proof.
  unfold rewrite_document. intros H. inv_Ok.
  match goal with H : rewrite_links _ _ _ = Ok _ |- _ =>
    apply rewrite_links_root in H as (el' & ch' & -> & Hname & Hattrs & _) end.
  rewrite remove_selected_Element. by eexists _, _.
Qed.


(** C10.  When JSDOM builds a document for the input (and the [URL]
    constructor serialises as the URL Standard has it), [rewriteHtml] returns
    the serialisation of one node and nothing else: the document's root
    element, an [html] element with the attributes it was parsed with, as the
    rewrite left it.  What the document holds outside its root element (the
    doctype, comments before and after) has no part in the result: any input
    whose document has the same root element gives the same string. *)
Theorem rewriteHtml_serializes_root (base html : jsstring) (doc : document) :
  URL_conforms W ->
  JSDOM_new W html base = Ok doc ->
  exists el children,
    rewrite_document W base doc = Ok (Element el children) /\
    localName el = js "html" /\
    attributes el = root_attributes doc /\
    rewriteHtml W base html = Ok (outerHTML W (Element el children)) /\
    forall html' doc',
      JSDOM_new W html' base = Ok doc' ->
      documentElement doc' = documentElement doc ->
      rewriteHtml W base html' = Ok (outerHTML W (Element el children)).
Proof.
  intros HW Hdoc.
  destruct (rewrite_document_total W HW base doc) as [root Hroot].
  destruct (rewrite_document_root base doc root Hroot)
    as (el & children & -> & Hname & Hattrs).
  exists el, children. repeat split; try done.
  - unfold rewriteHtml. rewrite Hdoc. cbn [mbind result_bind].
    by rewrite Hroot.
  - intros html' doc' Hdoc' Hsame. unfold rewriteHtml. rewrite Hdoc'.
    cbn [mbind result_bind].
    assert (rewrite_document W base doc' = rewrite_document W base doc) as ->
      by (unfold rewrite_document; by rewrite Hsame).
    by rewrite Hroot.
Qed.

(** A tree without a targeted element and without a policy [meta] is
    rewritten to itself. *)
Lemma rewrite_links_plain base n :
  Forall (fun el => target_attribute (localName el) = None) (elements n) ->
  rewrite_links W base n = Ok n.
Proof.
  intros Hplain. apply rewrite_links_fused. revert Hplain.
  induction n as [el children IH|el content|data|data] using node_tree_ind;
    [|cbn [elements forEach_element]; rewrite Forall_singleton; intros Hel;
      by rewrite rewrite_element_target, Hel
     |done|done].
  cbn [elements]. rewrite Forall_cons, Forall_flat_map. intros [Hel Hch].
  apply forEach_element_Ok. exists el, children. split; [done|]. split.
  - by rewrite rewrite_element_target, Hel.
  - induction IH as [|c children IHc _ IHl]; [constructor|].
    apply Forall_cons in Hch as [Hc Hch]. constructor; [by apply IHc|by apply IHl].
Qed.

Lemma remove_selected_plain sel n :
  Forall (fun el => element_matches sel el = false) (elements n) ->
  remove_selected sel n = n.
Proof.
  induction n as [el children IH|el content|data|data] using node_tree_ind;
    [|done..].
  cbn [elements]. rewrite Forall_cons, Forall_flat_map. intros [_ Hch].
  rewrite remove_selected_Element. f_equal.
  induction IH as [|c children IHc _ IHl]; [done|].
  apply Forall_cons in Hch as [Hc Hch]. cbn [List.filter].
  assert (matches sel c = false) as ->.
  { destruct c as [el' ?|el' ?| |]; [| |done|done]; cbn [elements] in Hc;
      by apply Forall_cons in Hc as [? _]. }
  cbn [negb map]. by rewrite IHc, IHl.
Qed.

(** On a document with nothing to rewrite the result is the root element's
    serialisation as parsed. *)
Lemma rewriteHtml_plain_document base html doc :
  JSDOM_new W html base = Ok doc ->
  Forall (fun el => target_attribute (localName el) = None /\
                    element_matches csp_meta el = false)
    (elements (documentElement doc)) ->
  rewriteHtml W base html = Ok (outerHTML W (documentElement doc)).
Proof.
  intros Hdoc Hplain. unfold rewriteHtml, rewrite_document. rewrite Hdoc.
  cbn [mbind result_bind].
  rewrite rewrite_links_plain
    by (eapply Forall_impl; [exact Hplain|by intros ? [? _]]).
  cbn [mbind result_bind]. rewrite remove_selected_plain
    by (eapply Forall_impl; [exact Hplain|by intros ? [_ ?]]).
  done.
Qed.

End RewrittenDocument.

(** The serialiser of the HTML Standard starts an element with its start
    tag: what [rewriteHtml] returns with it starts with ["<html"], not with a
    doctype. *)
Lemma serialize_starts_with_tag el children :
  startsWith (serialize (Element el children)) ([60] ++ localName el) = true.
Proof.
  unfold serialize. cbn [serialize_in].
  assert (forall s t, startsWith (s ++ t) s = true) as Hprefix.
  { intros s t. induction s as [|c s IH]; [by destruct t|].
    cbn. by rewrite Z.eqb_refl. }
  destruct (bool_decide _); unfold start_tag;
    rewrite ?app_assoc; rewrite <- ?(app_assoc ([60] ++ localName el));
    apply Hprefix.
Qed.

(** ** The [/proxy_backend] endpoint *)

Section Endpoint.
Context (W : Platform).

(** The handler always answers, with one of four statuses. *)
Lemma handle_status q :
  exists r log,
    handle W q = (Some r, log) /\
    (status r = 200 \/ status r = 400 \/ status r = 403 \/ status r = 502).
Proof.
  destruct q as [target|]; [|eexists _, _; split; [by apply handle_missing; left|cbn; tauto]].
  destruct target as [|c target]; [eexists _, _; split; [by apply handle_missing; right|cbn; tauto]|].
  destruct (URL_new W (c :: target) None) as [parsed|e] eqn:Hu.
  - destruct (isAllowedHost W (hostname parsed)) eqn:Hh.
    + eexists _, _. split; [by eapply handle_allowed|].
      rewrite proxy_try_result.
      destruct (fetch W (c :: target)) as [up|]; cbn [mbind result_bind];
        [|cbn; tauto].
      destruct (includes _ _).
      * destruct (text up); cbn [mbind result_bind]; [|cbn; tauto].
        destruct (rewriteHtml W _ _); cbn; tauto.
      * destruct (arrayBuffer up); cbn; tauto.
    + eexists _, _. split; [by eapply handle_forbidden|cbn; tauto].
  - eexists _, _. split; [by eapply handle_invalid|cbn; tauto].
Qed.

(** C4.  A request without a [url] parameter, or with an empty one, or with
    one the [URL] constructor refuses, is answered 400; one whose URL parses
    to a host the allowlist refuses is answered 403; in these cases no fetch
    is made.  A request that passes both checks and whose fetch fails is
    answered 502, after that one fetch.  Every request is answered, and the
    status is 200, 400, 403 or 502. *)
Theorem proxy_backend_failure_statuses :
  (forall q, q = None \/ q = Some [] ->
     exists r, handle W q = (Some r, []) /\ status r = 400) /\
  (forall target e,
     target <> [] -> URL_new W target None = Throw e ->
     exists r, handle W (Some target) = (Some r, []) /\ status r = 400) /\
  (forall target parsed,
     target <> [] -> URL_new W target None = Ok parsed ->
     isAllowedHost W (hostname parsed) = false ->
     exists r, handle W (Some target) = (Some r, []) /\ status r = 403) /\
  (forall target parsed e,
     target <> [] -> URL_new W target None = Ok parsed ->
     isAllowedHost W (hostname parsed) = true ->
     fetch W target = Throw e ->
     exists r, handle W (Some target) = (Some r, [target]) /\ status r = 502) /\
  (forall q,
     exists r log,
       handle W q = (Some r, log) /\
       (status r = 200 \/ status r = 400 \/ status r = 403 \/ status r = 502)).
Proof.
  repeat split.
  - intros q Hq. eexists. split; [by apply handle_missing|done].
  - intros target e Ht Hu. eexists. split; [by eapply handle_invalid|done].
  - intros target parsed Ht Hu Hh. eexists.
    split; [by eapply handle_forbidden|done].
  - intros target parsed e Ht Hu Hh Hf. eexists.
    split; [by eapply handle_allowed|].
    by rewrite proxy_try_result, Hf.
  - apply handle_status.
Qed.

(** C3, as amended.  On the HTML path the handler rewrites the sanitised
    body against the URL it was asked for: the response is built from
    [rewriteHtml(target, ...)], and the URL the fetch ended at after
    redirects ([upstream.url]) is not read. *)
Theorem html_rewritten_against_requested_url
    (target : jsstring) (parsed : URL) (upstream : Response) (markup : jsstring) :
  target <> [] ->
  URL_new W target None = Ok parsed ->
  isAllowedHost W (hostname parsed) = true ->
  fetch W target = Ok upstream ->
  includes (or_else (content_type upstream) (js "application/octet-stream"))
    (js "text/html") = true ->
  text upstream = Ok markup ->
  handle W (Some target) =
  (Some match rewriteHtml W target (DOMPurify_sanitize W markup) with
        | Ok body =>
            mkResponseOut 200
              [(js "Content-Type", js "text/html; charset=utf-8");
               (js "X-Frame-Options", js "SAMEORIGIN")]
              (Str body)
        | Throw err => bad_gateway err
        end, [target]).
Proof.
  intros Ht Hu Hh Hf Hct Htext.
  rewrite (handle_allowed W target parsed Ht Hu Hh), proxy_try_result, Hf.
  cbn [mbind result_bind]. rewrite Hct, Htext. cbn [mbind result_bind].
  by destruct (rewriteHtml W target _).
Qed.

(** C9, as amended.  When the content type the handler works with (the
    upstream [content-type] header, or [application/octet-stream] when the
    header is absent or empty) does not contain ["text/html"] and the body
    is read, the response carries the upstream bytes unchanged under the
    status 200, and its one header is [Content-Type]: the upstream header
    verbatim when there is a non-empty one, [application/octet-stream]
    otherwise. *)
Theorem passthrough_copies_body_and_type
    (target : jsstring) (parsed : URL) (upstream : Response) (bytes : list Z) :
  target <> [] ->
  URL_new W target None = Ok parsed ->
  isAllowedHost W (hostname parsed) = true ->
  fetch W target = Ok upstream ->
  includes (or_else (content_type upstream) (js "application/octet-stream"))
    (js "text/html") = false ->
  arrayBuffer upstream = Ok bytes ->
  exists contentType,
    handle W (Some target) =
      (Some (mkResponseOut 200 [(js "Content-Type", contentType)] (Buf bytes)),
       [target]) /\
    (forall ct, content_type upstream = Some ct -> ct <> [] -> contentType = ct) /\
    (content_type upstream = None \/ content_type upstream = Some [] ->
     contentType = js "application/octet-stream").
Proof.
  intros Ht Hu Hh Hf Hct Hbuf.
  exists (or_else (content_type upstream) (js "application/octet-stream")).
  split; [|split].
  - rewrite (handle_allowed W target parsed Ht Hu Hh), proxy_try_result, Hf.
    cbn [mbind result_bind]. by rewrite Hct, Hbuf.
  - intros ct -> Hne. by destruct ct.
  - by intros [-> | ->].
Qed.

End Endpoint.

(** * The sample platform at work *)

Lemma assoc_elem_of {K V} `{EqDecision K} (k : K) (v : V) l :
  Sample.assoc k l = Some v -> (k, v) ∈ l.
Proof.
  induction l as [|[k' v'] l IH]; [done|]. cbn [Sample.assoc].
  case_decide as Hk.
  - intros [= ->]. subst k'. apply list_elem_of_here.
  - intros Hl. by apply list_elem_of_further, IH.
Qed.

Lemma sample_URL_conforms : URL_conforms Sample.open_platform.
Proof.
  intros u base parsed. cbn [URL_new Sample.open_platform].
  unfold Sample.URL_new.
  destruct (Sample.assoc (u, base) Sample.url_table) as [p|] eqn:Hp; [|done].
  intros [= ->]. apply assoc_elem_of, list_elem_of_In in Hp.
  assert (forallb (fun e => well_formed (href e.2)) Sample.url_table = true)
    as Htable by by vm_compute.
  rewrite forallb_forall in Htable. by apply Htable in Hp.
Qed.

(** The end-to-end example of the specification: [href="/about"] on a page
    of [https://example.com/]. *)
Example about_link_rewritten :
  rewrite_element Sample.open_platform Sample.site Sample.about_link
  = Ok (mkElement (js "a")
          [(js "href", js "/proxy_backend?url=https%3A%2F%2Fexample.com%2Fabout")]).
Proof. reflexivity. Qed.

Example page_rewritten_as_expected :
  rewriteHtml Sample.open_platform Sample.site Sample.page_markup
  = Ok Sample.page_rewritten.
Proof. by vm_compute. Qed.

Example non_html_passed_through :
  handle Sample.closed_platform (Some (js "https://example.com/logo.png"))
  = (Some (mkResponseOut 200 [(js "Content-Type", js "image/png")]
             (Buf Sample.png_bytes)),
     [js "https://example.com/logo.png"]).
Proof. by vm_compute. Qed.

Example empty_url_refused :
  handle Sample.open_platform (Some [])
  = (Some (mkResponseOut 400 [] (Str (js "missing url"))), []).
Proof. reflexivity. Qed.

Example fetch_failure_reported :
  handle Sample.open_platform (Some (js "https://down.example/"))
  = (Some (mkResponseOut 502 []
             (Str (js "fetch error: connect ECONNREFUSED"))),
     [js "https://down.example/"]).
Proof. by vm_compute. Qed.

(** ** Witnesses

    Each theorem above that has premises, applied on the sample platform. *)

Lemma resolved_reference_proxied_witness :
  getAttribute Sample.about_link (js "href") = Some (js "/about") /\
  resolveAbsoluteUrl Sample.open_platform Sample.site (js "/about")
    = Ok (Some (js "https://example.com/about")) /\
  exists enc,
    encodeURIComponent (js "https://example.com/about") = Ok enc /\
    rewriteAttr Sample.open_platform Sample.site Sample.about_link (js "href")
      = Ok (setAttribute Sample.about_link (js "href") (proxy_path ++ enc)) /\
    getAttribute (setAttribute Sample.about_link (js "href") (proxy_path ++ enc))
        (js "href")
      = Some (proxy_path ++ enc) /\
    forallb is_query_safe enc = true /\
    (forall c, c ∈ enc -> c ∉ query_delimiters) /\
    decodeURIComponent enc = Ok (js "https://example.com/about") /\
    ((localName Sample.about_link, js "href") ∈ link_targets ->
     rewrite_element Sample.open_platform Sample.site Sample.about_link
       = Ok (setAttribute Sample.about_link (js "href") (proxy_path ++ enc))).
Proof.
  split; [reflexivity|]. split; [reflexivity|].
  apply (resolved_reference_proxied Sample.open_platform Sample.site
           Sample.about_link (js "href") (js "/about")
           (js "https://example.com/about"));
    [reflexivity|discriminate|reflexivity|reflexivity|discriminate|reflexivity].
Defined.

Lemma script_and_data_values_left_alone_witness :
  getAttribute Sample.script_link (js "href") = Some (js " JavaScript:alert(1)") /\
  is_script_or_data (js " JavaScript:alert(1)") = true /\
  (localName Sample.script_link, js "href") ∈ link_targets /\
  rewriteAttr Sample.open_platform Sample.site Sample.script_link (js "href")
    = Ok Sample.script_link /\
  rewrite_element Sample.open_platform Sample.site Sample.script_link
    = Ok Sample.script_link.
Proof.
  assert ((localName Sample.script_link, js "href") ∈ link_targets) as Hin
    by apply list_elem_of_here.
  split; [reflexivity|]. split; [reflexivity|]. split; [exact Hin|].
  destruct (script_and_data_values_left_alone Sample.open_platform
              Sample.site Sample.script_link (js "href")
              (js " JavaScript:alert(1)") eq_refl eq_refl) as [Hattr Htree].
  split; [exact Hattr|]. exact (proj1 (Htree Hin)).
Defined.

(** The link that does not resolve stays, and the link after it is
    rewritten. *)
Lemma unresolved_reference_left_alone_witness :
  resolveAbsoluteUrl Sample.open_platform Sample.site (js "https://") = Ok None /\
  getAttribute Sample.broken_link (js "href") = Some (js "https://") /\
  rewriteAttr Sample.open_platform Sample.site Sample.broken_link (js "href")
    = Ok Sample.broken_link /\
  exists parent' before' children' after',
    Element (mkElement (js "body") [])
      [ Element Sample.broken_link [Text (js "bad")];
        Element
          (mkElement (js "a")
             [(js "href",
               js "/proxy_backend?url=https%3A%2F%2Fexample.com%2Fabout")])
          [Text (js "About")] ]
    = Element parent'
        (before' ++ Element Sample.broken_link children' :: after') /\
    rewrite_element Sample.open_platform Sample.site (mkElement (js "body") [])
      = Ok parent' /\
    Forall2 (fun c c' => rewrite_links Sample.open_platform Sample.site c = Ok c')
      [] before' /\
    Forall2 (fun c c' => rewrite_links Sample.open_platform Sample.site c = Ok c')
      [Text (js "bad")] children' /\
    Forall2 (fun c c' => rewrite_links Sample.open_platform Sample.site c = Ok c')
      [Element Sample.about_link [Text (js "About")]] after'.
Proof.
  split; [reflexivity|]. split; [reflexivity|].
  destruct (proj2 (proj2 (unresolved_reference_left_alone Sample.open_platform
                            Sample.site (js "https://")))
              eq_refl Sample.broken_link (js "href") eq_refl) as [Hattr Htree].
  split; [exact Hattr|].
  apply (proj1 (Htree (list_elem_of_here _ _) (mkElement (js "body") []) []
                  [Text (js "bad")]
                  [Element Sample.about_link [Text (js "About")]] _)).
  reflexivity.
Defined.

Lemma isAllowedHost_exact_member_witness :
  ALLOWED_HOSTS Sample.closed_platform <> [] /\
  (isAllowedHost Sample.closed_platform (js "example.com") = true <->
   js "example.com" ∈ ALLOWED_HOSTS Sample.closed_platform).
Proof.
  assert (ALLOWED_HOSTS Sample.closed_platform <> []) as Hne
    by (vm_compute; discriminate).
  split; [exact Hne|].
  exact (proj2 (isAllowedHost_exact_member Sample.closed_platform
                  (js "example.com")) Hne).
Defined.


Lemma rewriteHtml_serializes_root_witness :
  exists el children,
    rewrite_document Sample.open_platform Sample.site Sample.page_document
      = Ok (Element el children) /\
    localName el = js "html" /\
    attributes el = root_attributes Sample.page_document /\
    rewriteHtml Sample.open_platform Sample.site Sample.page_markup
      = Ok (outerHTML Sample.open_platform (Element el children)) /\
    forall html' doc',
      JSDOM_new Sample.open_platform html' Sample.site = Ok doc' ->
      documentElement doc' = documentElement Sample.page_document ->
      rewriteHtml Sample.open_platform Sample.site html'
        = Ok (outerHTML Sample.open_platform (Element el children)).
Proof.
  apply (rewriteHtml_serializes_root Sample.open_platform Sample.site
           Sample.page_markup Sample.page_document sample_URL_conforms).
  by vm_compute.
Defined.

Lemma proxy_backend_failure_statuses_witness :
  isAllowedHost Sample.closed_platform (js "evil.com") = false /\
  exists r,
    handle Sample.closed_platform (Some (js "https://evil.com/")) = (Some r, []) /\
    status r = 403.
Proof.
  split; [reflexivity|].
  apply (proj1 (proj2 (proj2 (proxy_backend_failure_statuses
                                Sample.closed_platform)))
           (js "https://evil.com/")
           (mkURL (js "https://evil.com/") (js "evil.com")));
    [discriminate|reflexivity|reflexivity].
Defined.

Lemma html_rewritten_against_requested_url_witness :
  handle Sample.closed_platform (Some (js "https://example.com/page")) =
  (Some match rewriteHtml Sample.closed_platform (js "https://example.com/page")
               (DOMPurify_sanitize Sample.closed_platform Sample.link_markup) with
        | Ok body =>
            mkResponseOut 200
              [(js "Content-Type", js "text/html; charset=utf-8");
               (js "X-Frame-Options", js "SAMEORIGIN")]
              (Str body)
        | Throw err => bad_gateway err
        end, [js "https://example.com/page"]).
Proof.
  apply (html_rewritten_against_requested_url Sample.closed_platform
           (js "https://example.com/page")
           (mkURL (js "https://example.com/page") (js "example.com"))
           (mkResponse (js "https://example.com/page") (Some (js "text/html"))
              (Ok Sample.link_markup) (Ok Sample.link_markup))
           Sample.link_markup);
    [discriminate|reflexivity..].
Defined.

Lemma passthrough_copies_body_and_type_witness :
  exists contentType,
    handle Sample.closed_platform (Some (js "https://example.com/logo.png")) =
      (Some (mkResponseOut 200 [(js "Content-Type", contentType)]
               (Buf Sample.png_bytes)),
       [js "https://example.com/logo.png"]) /\
    (forall ct, Some (js "image/png") = Some ct -> ct <> [] -> contentType = ct) /\
    (Some (js "image/png") = None \/ Some (js "image/png") = Some [] ->
     contentType = js "application/octet-stream").
Proof.
  apply (passthrough_copies_body_and_type Sample.closed_platform
           (js "https://example.com/logo.png")
           (mkURL (js "https://example.com/logo.png") (js "example.com"))
           (mkResponse (js "https://example.com/logo.png")
              (Some (js "image/png"))
              (Ok [65533; 80; 78; 71; 13; 10; 26; 10]) (Ok Sample.png_bytes))
           Sample.png_bytes);
    [discriminate|reflexivity..].
Defined.

(** ** Where the wording of the specification fails *)

(** C1 as stated: an empty [href] resolves (to the base itself) and is no
    [javascript:] or [data:] reference, yet the rewriter leaves it empty. *)
Lemma empty_reference_not_rewritten :
  getAttribute Sample.empty_link (js "href") = Some [] /\
  resolveAbsoluteUrl Sample.open_platform Sample.site [] = Ok (Some Sample.site) /\
  is_script_or_data [] = false /\
  rewriteAttr Sample.open_platform Sample.site Sample.empty_link (js "href")
    = Ok Sample.empty_link /\
  rewrite_element Sample.open_platform Sample.site Sample.empty_link
    = Ok Sample.empty_link /\
  forall enc,
    rewriteAttr Sample.open_platform Sample.site Sample.empty_link (js "href")
    <> Ok (setAttribute Sample.empty_link (js "href") (proxy_path ++ enc)).
Proof.
  repeat split; try reflexivity.
  intros enc H. vm_compute in H. discriminate H.
Qed.

(** C3 as stated: the fetch of [http://old.example/] ends, after a redirect,
    at [http://new.example/dir/]; the link [x] of the page is rewritten to
    [http://old.example/x], not to [http://new.example/dir/x] as rewriting
    against the final URL would give. *)
Lemma redirected_page_rewritten_against_request :
  url <$> fetch Sample.open_platform (js "http://old.example/")
    = Ok (js "http://new.example/dir/") /\
  handle Sample.open_platform (Some (js "http://old.example/")) =
    (Some (mkResponseOut 200
             [(js "Content-Type", js "text/html; charset=utf-8");
              (js "X-Frame-Options", js "SAMEORIGIN")]
             (Str Sample.link_page_old)),
     [js "http://old.example/"]) /\
  rewriteHtml Sample.open_platform (js "http://new.example/dir/")
    (DOMPurify_sanitize Sample.open_platform Sample.link_markup)
    = Ok Sample.link_page_new /\
  Sample.link_page_old <> Sample.link_page_new.
Proof.
  repeat split; by vm_compute.
Qed.


(** C9 as stated: an upstream response without a [content-type] header, or
    with an empty one, has a content type that does not contain
    ["text/html"]; the response's [Content-Type] is then
    [application/octet-stream], which the upstream did not send. *)
Lemma absent_content_type_replaced :
  content_type <$> fetch Sample.open_platform (js "https://example.com/raw")
    = Ok None /\
  handle Sample.open_platform (Some (js "https://example.com/raw")) =
    (Some (mkResponseOut 200
             [(js "Content-Type", js "application/octet-stream")]
             (Buf (js "raw"))),
     [js "https://example.com/raw"]) /\
  content_type <$> fetch Sample.open_platform Sample.site = Ok (Some []) /\
  includes [] (js "text/html") = false /\
  handle Sample.open_platform (Some Sample.site) =
    (Some (mkResponseOut 200
             [(js "Content-Type", js "application/octet-stream")]
             (Buf (js "raw"))),
     [Sample.site]) /\
  js "application/octet-stream" <> [].
Proof. repeat split; by vm_compute. Qed.

(** * Further properties of the code *)

(** [decodeURIComponent] gives back every string [encodeURIComponent]
    accepts, and what the latter writes holds unescaped characters and
    percent signs only. *)
Theorem encodeURIComponent_round_trip (s : jsstring) :
  well_formed s = true ->
  exists enc,
    encodeURIComponent s = Ok enc /\
    decodeURIComponent enc = Ok s /\
    forallb is_query_safe enc = true.
Proof.
  intros Hwf. destruct (decode_encode s Hwf) as (enc & Henc & Hdec).
  exists enc. repeat split; try done. by eapply encode_query_safe.
Qed.

Lemma encodeURIComponent_round_trip_witness :
  exists enc,
    encodeURIComponent [55357; 56832; 47; 233] = Ok enc /\
    decodeURIComponent enc = Ok [55357; 56832; 47; 233] /\
    forallb is_query_safe enc = true.
Proof.
  apply (encodeURIComponent_round_trip [55357; 56832; 47; 233]). reflexivity.
Defined.

Lemma forEach_element_ext h h' n :
  (forall el, h el = h' el) -> forEach_element h n = forEach_element h' n.
Proof.
  intros Hh. induction n as [el children IH|el content|data|data] using node_tree_ind;
    [|by cbn [forEach_element]; rewrite Hh|done|done].
  rewrite !forEach_element_Element, Hh.
  destruct (h' el) as [el'|]; [|done]. cbn [mbind result_bind].
  assert (forEach (forEach_element h) children
          = forEach (forEach_element h') children) as ->; [|done].
  induction IH as [|c children IHc _ IHl]; [done|].
  by rewrite !forEach_cons, IHc, IHl.
Qed.

(** The five [querySelectorAll(...).forEach(...)] statements build the tree
    that a single walk builds which looks each element's name up in the
    table of targeted attributes. *)
Theorem rewrite_links_dispatch_table (W : Platform) (base : jsstring) (n r : node) :
  rewrite_links W base n = Ok r <->
  forEach_element
    (fun el => match target_attribute (localName el) with
               | Some attr => rewriteAttr W base el attr
               | None => Ok el
               end) n = Ok r.
Proof.
  rewrite rewrite_links_fused.
  by rewrite (forEach_element_ext _ _ n (rewrite_element_target W base)).
Qed.

(** The handler fetches at most once, the URL it was asked for, and only
    after that URL parsed and its host passed the allowlist. *)
Theorem fetch_only_after_checks
    (W : Platform) (q : option jsstring) (r : option http_response)
    (log : list jsstring) :
  handle W q = (r, log) ->
  log = [] \/
  exists target parsed,
    q = Some target /\ URL_new W target None = Ok parsed /\
    isAllowedHost W (hostname parsed) = true /\ log = [target].
Proof.
  destruct q as [target|]; [|rewrite handle_missing by (by left); intros [= _ <-]; by left].
  destruct target as [|c target];
    [rewrite handle_missing by (by right); intros [= _ <-]; by left|].
  destruct (URL_new W (c :: target) None) as [parsed|e] eqn:Hu.
  - destruct (isAllowedHost W (hostname parsed)) eqn:Hh.
    + rewrite (handle_allowed W _ parsed) by done. intros [= _ <-].
      right. by exists (c :: target), parsed.
    + rewrite (handle_forbidden W _ parsed) by done. intros [= _ <-]. by left.
  - rewrite (handle_invalid W _ e) by done. intros [= _ <-]. by left.
Qed.

Lemma fetch_only_after_checks_witness :
  [js "https://example.com/logo.png"] = [] \/
  exists target parsed,
    Some (js "https://example.com/logo.png") = Some target /\
    URL_new Sample.closed_platform target None = Ok parsed /\
    isAllowedHost Sample.closed_platform (hostname parsed) = true /\
    [js "https://example.com/logo.png"] = [target].
Proof.
  apply (fetch_only_after_checks Sample.closed_platform
           (Some (js "https://example.com/logo.png"))
           (Some (mkResponseOut 200 [(js "Content-Type", js "image/png")]
                    (Buf Sample.png_bytes)))).
  by vm_compute.
Defined.

(** Every page the handler answers with status 200 carries the content type
    [text/html; charset=utf-8] and [X-Frame-Options: SAMEORIGIN]. *)
Theorem html_response_headers
    (W : Platform) (q : option jsstring) (r : http_response)
    (log : list jsstring) (page : jsstring) :
  handle W q = (Some r, log) ->
  status r = 200 ->
  body r = Str page ->
  headers r = [(js "Content-Type", js "text/html; charset=utf-8");
               (js "X-Frame-Options", js "SAMEORIGIN")].
Proof.
  destruct q as [target|]; [|rewrite handle_missing by (by left); by intros [= <- _]].
  destruct target as [|c target];
    [rewrite handle_missing by (by right); by intros [= <- _]|].
  destruct (URL_new W (c :: target) None) as [parsed|e] eqn:Hu.
  - destruct (isAllowedHost W (hostname parsed)) eqn:Hh.
    + rewrite (handle_allowed W _ parsed), proxy_try_result by done.
      destruct (fetch W (c :: target)) as [up|]; cbn [mbind result_bind];
        [|by intros [= <- _]].
      destruct (includes _ _).
      * destruct (text up); cbn [mbind result_bind]; [|by intros [= <- _]].
        destruct (rewriteHtml W _ _); cbn [mbind result_bind];
          by intros [= <- _].
      * destruct (arrayBuffer up); cbn [mbind result_bind];
          by intros [= <- _].
    + rewrite (handle_forbidden W _ parsed) by done. by intros [= <- _].
  - rewrite (handle_invalid W _ e) by done. by intros [= <- _].
Qed.

Lemma html_response_headers_witness :
  headers (mkResponseOut 200
             [(js "Content-Type", js "text/html; charset=utf-8");
              (js "X-Frame-Options", js "SAMEORIGIN")]
             (Str Sample.link_page_old))
  = [(js "Content-Type", js "text/html; charset=utf-8");
     (js "X-Frame-Options", js "SAMEORIGIN")].
Proof.
  apply (html_response_headers Sample.open_platform
           (Some (js "http://old.example/")) _
           [js "http://old.example/"] Sample.link_page_old);
    [by vm_compute|reflexivity|reflexivity].
Defined.

(** The render service lets a URL through exactly when its list is empty or
    the URL parses to a host the proxy's own check lets through. *)
Theorem render_ok_allowlist (W : Platform) (u : jsstring) :
  Render.ok W u = true <->
  Render.ALLOWED W = [] \/
  exists parsed,
    URL_new W u None = Ok parsed /\ isAllowedHost W (hostname parsed) = true.
Proof.
  unfold Render.ok, isAllowedHost.
  change (Render.ALLOWED W) with (ALLOWED_HOSTS W).
  destruct (ALLOWED_HOSTS W) as [|h hosts] eqn:Hhosts; cbn [length Nat.eqb].
  - cbn. split; [by left|done].
  - destruct (URL_new W u None) as [parsed|e]; cbn.
    + split; [intros H; right; by exists parsed|].
      intros [?|(p & [= <-] & H)]; done.
    + split; [done|]. by intros [?|(p & ? & _)].
Qed.

(** * The [/search] endpoint *)

Section SearchResults.
Import Search SearchFailure.

Lemma for_of_invariant (Inv : list search_result -> Prop) body items results out :
  (forall x rs rs', Inv rs -> body x rs = Ok rs' -> Inv rs') ->
  Inv results -> for_of body items results = Ok out -> Inv out.
Proof.
  intros Hbody. revert results.
  induction items as [|x items IH]; intros results Hinv; cbn [for_of].
  - by intros [= <-].
  - intros (rs' & Hx & Hrest)%bind_Ok. eapply IH; [|exact Hrest]. eauto.
Qed.

Lemma push_topic_usable x rs rs' :
  Forall usable rs -> push_topic x rs = Ok rs' -> Forall usable rs'.
Proof.
  unfold push_topic. intros Hrs (first & _ & H)%bind_Ok.
  destruct (ToBoolean first) eqn:Hfirst; [|by injection H as <-].
  apply bind_Ok in H as (text & _ & H).
  destruct (ToBoolean text) eqn:Htext; injection H as <-; [|done].
  apply Forall_app. split; [done|]. constructor; [|constructor].
  split; cbn; [done|by left].
Qed.

Lemma push_result_usable x rs rs' :
  Forall usable rs -> push_result x rs = Ok rs' -> Forall usable rs'.
Proof.
  unfold push_result. intros Hrs H.
  destruct (ToBoolean x); [|by injection H as <-].
  apply bind_Ok in H as (first & _ & H).
  destruct (ToBoolean first) eqn:Hfirst; [|by injection H as <-].
  apply bind_Ok in H as (text & _ & H).
  destruct (ToBoolean text) eqn:Htext; [|by injection H as <-].
  apply bind_Ok in H as (res & _ & [= <-]).
  apply Forall_app. split; [done|]. constructor; [|constructor].
  split; cbn; [done|by left].
Qed.

Lemma push_related_usable x rs rs' :
  Forall usable rs -> push_related x rs = Ok rs' -> Forall usable rs'.
Proof.
  unfold push_related. intros Hrs (topics & _ & H)%bind_Ok.
  destruct (ToBoolean topics && isArray topics).
  - eapply (for_of_invariant (Forall usable)); [|exact Hrs|exact H].
    intros. by eapply push_topic_usable.
  - by eapply push_topic_usable.
Qed.

Lemma collect_usable j rs :
  collect j = Ok rs -> (length rs <= 30)%nat /\ Forall usable rs.
Proof.
  unfold collect. intros H.
  apply bind_Ok in H as (results & _ & H).
  apply bind_Ok in H as (rs1 & Hrs1 & H).
  apply bind_Ok in H as (related & _ & H).
  apply bind_Ok in H as (rs2 & Hrs2 & H).
  apply bind_Ok in H as (au & _ & H).
  apply bind_Ok in H as (atext & _ & H).
  apply bind_Ok in H as (rs3 & Hrs3 & [= <-]).
  split; [rewrite length_take; lia|].
  apply Forall_take.
  assert (Forall usable rs1) as H1.
  { destruct (isArray results && _); [|by injection Hrs1 as <-].
    eapply (for_of_invariant (Forall usable)); [|constructor|exact Hrs1].
    intros. by eapply push_result_usable. }
  assert (Forall usable rs2) as H2.
  { destruct (isArray related); [|by injection Hrs2 as <-].
    eapply (for_of_invariant (Forall usable)); [|exact H1|exact Hrs2].
    intros. by eapply push_related_usable. }
  destruct (ToBoolean (or_value au atext)) eqn:Hsum; [|by injection Hrs3 as <-].
  apply bind_Ok in Hrs3 as (heading & _ & [= <-]).
  constructor; [|done]. split; cbn.
  - unfold or_value. destruct (ToBoolean heading) eqn:Hh; [done|].
    by destruct (ToBoolean atext) eqn:Ha.
  - unfold or_value in *. destruct (ToBoolean au) eqn:Hau; [by left|].
    right. by rewrite Hsum.
Qed.

Lemma is_throw_bind {A B} (m : result A) (k : A -> result B) :
  is_throw (m ≫= k) =
  match m with Ok a => is_throw (k a) | Throw _ => true end.
Proof. by destruct m. Qed.

Lemma is_throw_get v key : is_throw (get v key) = nullish v.
Proof. by destruct v. Qed.

Lemma get_field v key : nullish v = false -> get v key = Ok (field v key).
Proof. unfold field. by destruct v. Qed.

Lemma ToBoolean_not_nullish v : ToBoolean v = true -> nullish v = false.
Proof. by destruct v. Qed.

Lemma push_topic_throws x rs : is_throw (push_topic x rs) = nullish x.
Proof.
  unfold push_topic. destruct (nullish x) eqn:Hx.
  - by destruct x.
  - rewrite !get_field by done. cbn [mbind result_bind].
    destruct (ToBoolean (field x "FirstURL")); [|done].
    by destruct (ToBoolean (field x "Text")).
Qed.

Lemma push_result_returns x rs : is_throw (push_result x rs) = false.
Proof.
  unfold push_result. destruct (ToBoolean x) eqn:Hx; [|done].
  apply ToBoolean_not_nullish in Hx. rewrite !get_field by done.
  cbn [mbind result_bind].
  destruct (ToBoolean (field x "FirstURL")); [|done].
  by destruct (ToBoolean (field x "Text")).
Qed.

Lemma for_of_throws body fails items rs :
  (forall x rs, is_throw (body x rs) = fails x) ->
  is_throw (for_of body items rs) = existsb fails items.
Proof.
  intros Hbody. revert rs. induction items as [|x items IH]; intros rs; [done|].
  cbn [for_of existsb]. rewrite is_throw_bind, <- (Hbody x rs).
  destruct (body x rs) as [rs'|]; [|done]. apply IH.
Qed.

Lemma push_related_throws t rs : is_throw (push_related t rs) = topic_fails t.
Proof.
  unfold push_related, topic_fails. destruct (nullish t) eqn:Ht.
  - by destruct t.
  - rewrite get_field by done. cbn [mbind result_bind orb].
    destruct (ToBoolean (field t "Topics") && isArray (field t "Topics")).
    + apply for_of_throws, push_topic_throws.
    + by rewrite push_topic_throws.
Qed.

Lemma collect_throws j : is_throw (collect j) = collect_fails j.
Proof.
  unfold collect, collect_fails. destruct (nullish j) eqn:Hj.
  - by destruct j.
  - rewrite !(get_field j) by done. cbn [mbind result_bind orb].
    rewrite is_throw_bind.
    assert (is_throw
              (if isArray (field j "Results") &&
                  negb (length (items_of (field j "Results")) =? 0)%nat
               then for_of push_result (items_of (field j "Results")) []
               else Ok []) = false) as Hresults.
    { destruct (_ && _); [|done].
      rewrite (for_of_throws _ (fun _ => false)) by apply push_result_returns.
      by induction (items_of _). }
    destruct (if isArray (field j "Results") && _ then _ else _) as [rs1|];
      [clear Hresults|done].
    rewrite is_throw_bind.
    destruct (isArray (field j "RelatedTopics")); cbn [andb].
    + rewrite <- (for_of_throws push_related topic_fails _ rs1)
        by apply push_related_throws.
      destruct (for_of push_related _ rs1); [|done].
      by destruct (ToBoolean (or_value _ _)).
    + by destruct (ToBoolean (or_value _ _)).
Qed.

End SearchResults.

Section Trim.
Import Search.

Lemma skip_space_idem s : skip_space (skip_space s) = skip_space s.
Proof.
  induction s as [|c s IH]; [done|]. cbn [skip_space].
  destruct (is_regexp_space c) eqn:Hc; [done|]. cbn [skip_space]. by rewrite Hc.
Qed.

Lemma skip_space_snoc l c :
  is_regexp_space c = false -> skip_space (l ++ [c]) = skip_space l ++ [c].
Proof.
  intros Hc. induction l as [|d l IH]; cbn [app skip_space].
  - by rewrite Hc.
  - by destruct (is_regexp_space d).
Qed.

Lemma skip_space_head s :
  skip_space s = [] \/
  exists c rest, skip_space s = c :: rest /\ is_regexp_space c = false.
Proof.
  induction s as [|c s IH]; [by left|]. cbn [skip_space].
  destruct (is_regexp_space c) eqn:Hc; [done|]. right. by exists c, s.
Qed.

(** What [trim] returns has no white space at either end, so trimming it
    again changes nothing. *)
Lemma trim_trimmed s :
  skip_space (trim s) = trim s /\ skip_space (rev (trim s)) = rev (trim s).
Proof.
  unfold trim. split; [|by rewrite rev_involutive, skip_space_idem].
  destruct (skip_space_head s) as [->|(c & rest & -> & Hc)]; [done|].
  cbn [rev]. rewrite skip_space_snoc by done.
  rewrite rev_app_distr. cbn [rev app skip_space]. by rewrite Hc.
Qed.

Lemma trim_idem s : trim (trim s) = trim s.
Proof.
  destruct (trim_trimmed s) as [H1 H2]. unfold trim at 1.
  by rewrite H1, H2, rev_involutive.
Qed.

End Trim.

Section SearchEndpoint.
Import Search SearchFailure.
Context (P : Provider).

Lemma handle_search_missing query_q :
  query_q = None \/ (exists q, query_q = Some (QString q) /\ trim q = []) ->
  handle_search P query_q
  = (Ok (mkSearchResponse 400 (ErrorBody (js "missing q") None)), []).
Proof.
  intros [->|(q & -> & Hq)]; [done|].
  unfold handle_search, search, optional_trim.
  unfold mbind at 1, eff_mbind, Eff.bind, Eff.lift. by rewrite Hq.
Qed.


(** With a query, the handler asks the provider once and answers from the
    [try] block or from the [catch]. *)
Lemma handle_search_query q :
  trim q <> [] ->
  handle_search P (Some (QString q)) =
  (Ok match
        (r ← provider P (api_url P (trim q));
         if negb (provider_ok r) then
           Ok (mkSearchResponse 502
                 (ErrorBody (js "search-provider-failed")
                    (Some (provider_status r))))
         else
           j ← provider_json r;
           results ← collect j;
           Ok (mkSearchResponse 200 (ResultsBody (trim q) results)))
      with
      | Ok resp => resp
      | Throw err =>
          mkSearchResponse 500
            (ErrorBody (or_else (Some (exn_message err)) (js "unknown")) None)
      end,
   [api_url P (trim q)]).
Proof.
  intros Hq. unfold handle_search, search, optional_trim.
  unfold mbind at 1, eff_mbind, Eff.bind, Eff.lift.
  assert (truthy (trim q) = true) as -> by by destruct (trim q).
  cbn [negb]. unfold Eff.catch, search_try, fetch_provider.
  unfold mbind at 1, eff_mbind, Eff.bind. cbn [app].
  destruct (provider P (api_url P (trim q))) as [r|e]; cbn [mbind result_bind];
    [|done].
  destruct (provider_ok r); cbn [negb]; [|done].
  unfold mbind at 1, eff_mbind, Eff.bind, Eff.lift.
  destruct (provider_json r) as [j|e]; cbn [mbind result_bind]; [|done].
  unfold mbind at 1, eff_mbind, Eff.bind.
  by destruct (collect j).
Qed.

End SearchEndpoint.

Section SearchTheorems.
Import Search SearchFailure.

(** X6.  A [/search] response that carries results has status 200, echoes
    the trimmed, non-empty query, was built from one request to the
    provider, holds at most 30 results, and every result has a title and a
    URL or a snippet. *)
Theorem search_results_usable (P : Provider) query_q st query rs log :
  handle_search P query_q
  = (Ok (mkSearchResponse st (ResultsBody query rs)), log) ->
  st = 200 /\
  (exists q, query_q = Some (QString q) /\ query = trim q) /\
  query <> [] /\ skip_space query = query /\
  skip_space (rev query) = rev query /\
  log = [api_url P query] /\
  (length rs <= 30)%nat /\ Forall usable rs.
Proof.
  intros H. destruct query_q as [[q| |]|]; [|done|done|
    by rewrite handle_search_missing in H; [|left]].
  destruct (decide (trim q = [])) as [Hq|Hq].
  { rewrite handle_search_missing in H; [done|]. right. by exists q. }
  rewrite handle_search_query in H by done.
  destruct (provider P _) as [r|e]; cbn [mbind result_bind] in H; [|done].
  destruct (provider_ok r); cbn [negb] in H; [|done].
  destruct (provider_json r) as [j|e]; cbn [mbind result_bind] in H; [|done].
  destruct (collect j) as [results|e] eqn:Hj; cbn [mbind result_bind] in H;
    [|done].
  injection H as <- <- <- <-.
  destruct (trim_trimmed q) as [H1 H2], (collect_usable _ _ Hj) as [H3 H4].
  repeat split; try done. by exists q.
Qed.

(** X7.  When the provider's answer has an abstract (a URL or a text), the
    summary made of it is the first result, whatever else was collected, and
    the cut to 30 results never drops it. *)
Theorem search_summary_first (j : value) rs :
  collect j = Ok rs ->
  ToBoolean (or_value (field j "AbstractURL") (field j "AbstractText")) = true ->
  exists rest,
    rs = mkResult
           (or_value (field j "Heading")
              (or_value (field j "AbstractText") (String (js "Summary"))))
           (or_value (field j "AbstractURL") Undefined)
           (or_value (field j "AbstractText") Undefined) :: rest /\
    (length rest <= 29)%nat.
Proof.
  intros H Hsum. assert (nullish j = false) as Hj.
  { pose proof (collect_throws j) as Ht. rewrite H in Ht. cbn in Ht.
    unfold collect_fails in Ht. by destruct (nullish j). }
  unfold collect in H. rewrite !(get_field j) in H by done.
  cbn [mbind result_bind] in H.
  apply bind_Ok in H as (rs1 & _ & H).
  apply bind_Ok in H as (rs2 & _ & H).
  rewrite Hsum in H. cbn [mbind result_bind] in H. injection H as <-.
  eexists. split; [reflexivity|]. rewrite length_take. lia.
Qed.

(** X8.  Once the provider has answered with a JSON value, the request
    fails with status 500 exactly when the value is [null], or an entry of
    [RelatedTopics] is [null], or a group's [Topics] holds a [null];
    a [null] among [Results] is skipped.  Otherwise the status is 200. *)
Theorem search_fails_on_null_topic (P : Provider) q r j :
  trim q <> [] ->
  provider P (api_url P (trim q)) = Ok r ->
  provider_ok r = true ->
  provider_json r = Ok j ->
  exists resp,
    handle_search P (Some (QString q)) = (Ok resp, [api_url P (trim q)]) /\
    search_status resp = (if collect_fails j then 500 else 200).
Proof.
  intros Hq Hr Hok Hj. eexists. split; [by apply handle_search_query|].
  rewrite Hr. cbn [mbind result_bind]. rewrite Hok, Hj.
  cbn [negb mbind result_bind].
  rewrite <- collect_throws. by destruct (collect j).
Qed.


End SearchTheorems.

(** * The [/render] endpoint *)

Section RenderTheorems.
Import RenderService RenderOutcome.
Context (W : Platform) (B : Puppeteer).

Lemma handle_render_refused query_url :
  accepted W query_url = false ->
  exists resp,
    handle_render W B query_url = (Ok tt, mkRenderState (Some resp) false []) /\
    (resp = mkRenderResponse 400 [] (js "missing url") \/
     resp = mkRenderResponse 403 [] (js "forbidden")).
Proof.
  unfold accepted, handle_render, render. destruct query_url as [u|].
  - destruct (truthy u); cbn [andb negb].
    + intros ->. cbn [negb]. eexists. split; [reflexivity|by right].
    + intros _. eexists. split; [reflexivity|by left].
  - intros _. eexists. split; [reflexivity|by left].
Qed.

Lemma handle_render_accepted u :
  accepted W (Some u) = true ->
  handle_render W B (Some u) =
  match launch B with
  | Throw e => (Ok tt, mkRenderState (Some (error_response e)) false [])
  | Ok _ =>
      (match close B with Ok _ => Ok tt | Throw e => Throw e end,
       mkRenderState
         (Some match page_html B u with
               | Ok html => page_response html
               | Throw e => error_response e
               end)
         true [Launched; CloseCalled])
  end.
Proof.
  unfold accepted. intros [Hu Hok]%andb_true_iff.
  unfold handle_render, render. rewrite Hu, Hok. cbn [negb].
  unfold Eff.finally, Eff.catch, render_try, page_html.
  unfold mbind at 1, eff_mbind, Eff.bind, launch_browser.
  destruct (launch B) as [[]|e]; [|done]. cbn [fresh sent events app].
  unfold mbind at 1, eff_mbind, Eff.bind, Eff.lift.
  destruct (newPage B) as [[]|e]; cbn [mbind result_bind];
    [|cbn; by destruct (close B)].
  unfold mbind at 1, eff_mbind, Eff.bind, Eff.lift.
  destruct (setViewport B) as [[]|e]; cbn [mbind result_bind];
    [|cbn; by destruct (close B)].
  unfold mbind at 1, eff_mbind, Eff.bind, Eff.lift.
  destruct (goto B u) as [[]|e]; cbn [mbind result_bind];
    [|cbn; by destruct (close B)].
  unfold mbind at 1, eff_mbind, Eff.bind, Eff.lift.
  destruct (content B) as [html|e]; cbn; by destruct (close B).
Qed.

End RenderTheorems.

Section RenderProperties.
Import RenderService RenderOutcome.

(** X10.  A browser that was launched is closed, whichever step fails
    after the launch; nothing is launched for a request that is refused,
    and no browser is closed that was not launched. *)
Theorem render_closes_browser (W : Platform) (B : Puppeteer) query_url :
  events (handle_render W B query_url).2 =
  if launched W B query_url then [Launched; CloseCalled] else [].
Proof.
  unfold launched. destruct (accepted W query_url) eqn:Hacc; cbn [andb].
  - destruct query_url as [u|]; [|done].
    rewrite handle_render_accepted by done.
    by destruct (launch B) as [[]|e].
  - by destruct (handle_render_refused W B _ Hacc) as (resp & -> & _).
Qed.

(** X11.  The [/render] handler sends exactly one response, whatever
    puppeteer does: 400 or 403 for a refused request, 200 with the page's
    HTML and an HTML content type when every step succeeded, 500 with no
    content type otherwise.  The handler itself rejects only when closing
    the browser does, and the response is sent all the same. *)
Theorem render_always_answers (W : Platform) (B : Puppeteer) query_url :
  exists resp,
    sent (handle_render W B query_url).2 = Some resp /\
    (if accepted W query_url then
       match launch B, page_html B (default [] query_url) with
       | Ok _, Ok html => resp = page_response html
       | Throw e, _ | Ok _, Throw e => resp = error_response e
       end
     else
       resp = mkRenderResponse 400 [] (js "missing url") \/
       resp = mkRenderResponse 403 [] (js "forbidden")) /\
    (handle_render W B query_url).1 =
    (if launched W B query_url
     then match close B with Ok _ => Ok tt | Throw e => Throw e end
     else Ok tt).
Proof.
  unfold launched. destruct (accepted W query_url) eqn:Hacc; cbn [andb].
  - destruct query_url as [u|]; [|done].
    rewrite handle_render_accepted by done.
    change (default [] (Some u)) with u.
    destruct (launch B) as [[]|e].
    + cbn [fst snd sent]. eexists. split; [reflexivity|].
      split; [|reflexivity]. by destruct (page_html B u).
    + cbn [fst snd sent]. by eexists.
  - destruct (handle_render_refused W B _ Hacc) as (resp & -> & Hresp).
    by exists resp.
Qed.

End RenderProperties.

(** * The client *)

Section AppLemmas.
Import App AppSession.

Lemma len_app {A} (a b : list A) : len (a ++ b) = len a + len b.
Proof. unfold len. rewrite length_app. lia. Qed.

Lemma len_take {A} (a : list A) n :
  0 <= n <= len a -> len (take (Z.to_nat n) a) = n.
Proof. unfold len. intros H. rewrite length_take. lia. Qed.

Lemma at_index_last a e : at_index (a ++ [e]) (len (a ++ [e]) - 1) = e.
Proof.
  unfold at_index. rewrite len_app. unfold len. cbn [length].
  destruct (Z.ltb_spec (Z.of_nat (length a) + Z.of_nat 1 - 1) 0); [lia|].
  by rewrite list_lookup_middle by lia.
Qed.

Lemma at_index_Some a i e :
  0 <= i -> a !! Z.to_nat i = Some e -> at_index a i = e.
Proof.
  intros Hi He. unfold at_index. destruct (Z.ltb_spec i 0); [lia|].
  by rewrite He.
Qed.

Lemma push_history_in_range st t :
  in_range st ->
  push_history (pos st) (history st) t
  = take (Z.to_nat (pos st + 1)) (history st) ++ [t].
Proof.
  unfold in_range, push_history, slice_to. intros [[-> ->]|Hpos]; [done|].
  f_equal. destruct (Z.geb_spec (pos st) 0); [|lia]. cbn [andb].
  destruct (Z.ltb_spec (pos st) (len (history st) - 1)).
  - destruct (Z.ltb_spec (pos st + 1) 0); [lia|done].
  - rewrite take_ge; [done|]. unfold len in *. lia.
Qed.

Lemma in_range_len st : in_range st -> 0 <= pos st + 1 <= len (history st).
Proof. unfold in_range, len. intros [[-> ->]|?]; cbn; lia. Qed.

(** [openUrl] in a state whose position is in range. *)
Lemma openUrl_in_range st t enc :
  in_range st -> encodeURIComponent (ToString t) = Ok enc ->
  openUrl t st =
  (Ok tt,
   mkState (mode st) (url st)
     (take (Z.to_nat (pos st + 1)) (history st) ++ [t]) (pos st + 1)
     (set_src (frame st) (route (mode st) ++ enc))).
Proof.
  intros Hr Henc. unfold openUrl. rewrite Henc.
  rewrite push_history_in_range by done.
  rewrite len_app, len_take by by apply in_range_len.
  f_equal. f_equal; [unfold len; cbn; lia|]. by destruct (mode st).
Qed.

Lemma slice_to_take {A} (a : list A) e : exists n, slice_to a e = take n a.
Proof. unfold slice_to. destruct (e <? 0); by eexists. Qed.

Lemma opens_Some e :
  opens e = true -> exists s enc, e = Some s /\ encodeURIComponent s = Ok enc.
Proof.
  destruct e as [s|]; [|done]. cbn.
  destruct (encodeURIComponent s) as [enc|] eqn:Henc; [|done]. by exists s, enc.
Qed.

Lemma openUrl_invariant st t :
  session_invariant st -> opens t = true ->
  exists st', openUrl t st = (Ok tt, st') /\ session_invariant st'.
Proof.
  intros [Hr Hh] Ht. destruct (opens_Some _ Ht) as (s & enc & -> & Henc).
  eexists. split; [by eapply openUrl_in_range|].
  pose proof (in_range_len _ Hr). split.
  - right. cbn [history pos]. rewrite len_app, len_take by done.
    unfold len; cbn; lia.
  - cbn [history]. apply Forall_app. split; [by apply Forall_take|].
    by constructor.
Qed.

Lemma openUrl_keeps_invariant st t :
  session_invariant st -> truthy_opt t = true ->
  session_invariant (openUrl t st).2.
Proof.
  intros Hinv Ht. destruct t as [s|]; [|done].
  destruct (opens (Some s)) eqn:Hs.
  - by destruct (openUrl_invariant st _ Hinv Hs) as (st' & -> & ?).
  - unfold opens in Hs. unfold openUrl. cbn [ToString].
    by destruct (encodeURIComponent s).
Qed.

Lemma show_entry_invariant st n :
  session_invariant st -> 0 <= n < len (history st) ->
  exists st', show_entry n st = (Ok tt, st') /\ session_invariant st'.
Proof.
  intros Hinv Hn. unfold show_entry.
  destruct (lookup_lt_is_Some_2 (history st) (Z.to_nat n)) as [e He];
    [unfold len in Hn; lia|].
  rewrite (at_index_Some _ _ e) by (done || lia).
  destruct Hinv as [Hr Hh].
  pose proof (proj1 (Forall_lookup _ _) Hh _ _ He) as Hopens.
  case_bool_decide as Hsnip.
  - eexists. split; [reflexivity|]. split; [by right|done].
  - destruct (openUrl_invariant st e) as (st' & -> & Hinv'); [done..|].
    by exists st'.
Qed.

Lemma goBack_invariant st :
  session_invariant st ->
  exists st', goBack st = (Ok tt, st') /\ session_invariant st'.
Proof.
  intros Hinv. unfold goBack. destruct (Z.gtb_spec (pos st) 0); [|by exists st].
  apply show_entry_invariant; [done|]. destruct Hinv as [[[_ ?]|?] _]; lia.
Qed.

Lemma goForward_invariant st :
  session_invariant st ->
  exists st', goForward st = (Ok tt, st') /\ session_invariant st'.
Proof.
  intros Hinv. unfold goForward.
  destruct (Z.ltb_spec (pos st) (len (history st) - 1)) as [Hpos|];
    [|by exists st].
  apply show_entry_invariant; [done|].
  destruct Hinv as [[[Hh ?]|?] _]; [|lia].
  rewrite Hh in Hpos. unfold len in Hpos. cbn [length] in Hpos. lia.
Qed.

Lemma perform_invariant a st :
  session_invariant st -> session_invariant (perform a st).2.
Proof.
  intros Hinv. destruct a as [u|m| |r| |]; cbn [perform]; try done.
  - unfold go. destruct (truthy (url st)) eqn:Hu; [|done].
    by apply openUrl_keeps_invariant.
  - unfold onResultClick. destruct (truthy_opt (result_url r)) eqn:Hu.
    { by apply openUrl_keeps_invariant. }
    destruct (truthy_opt (result_snippet r)); [|done].
    destruct Hinv as [Hr Hh]. split.
    + right. cbn [snd history pos]. rewrite len_app. unfold len. cbn. lia.
    + cbn [snd history]. apply Forall_app. split; [|by constructor].
      destruct (slice_to_take (history st) (pos st + 1)) as [n ->].
      by apply Forall_take.
  - by destruct (goBack_invariant st Hinv) as (st' & -> & ?).
  - by destruct (goForward_invariant st Hinv) as (st' & -> & ?).
Qed.

Lemma run_invariant actions st :
  session_invariant st -> session_invariant (run actions st).
Proof.
  unfold run. revert st. induction actions as [|a actions IH]; intros st Hinv;
    [done|].
  cbn [foldl]. by apply IH, perform_invariant.
Qed.

Lemma escape_lt_spec s :
  (60 ∉ escape_lt s) /\ (60 ∉ s -> escape_lt s = s).
Proof.
  unfold escape_lt. induction s as [|c s [IH1 IH2]]; [split; [by intros ?%elem_of_nil|done]|].
  cbn [flat_map]. destruct (Z.eqb_spec c 60) as [Hc|Hc].
  - split.
    + intros [H|H]%elem_of_app; [|done]. vm_compute in H.
      repeat (apply elem_of_cons in H as [H|H]; [done|]). by apply elem_of_nil in H.
    + intros H. exfalso. apply H. rewrite Hc. by left.
  - split.
    + intros [H|H]%elem_of_app; [|done].
      apply elem_of_cons in H as [H|H]; [lia|by apply elem_of_nil in H].
    + intros H. cbn [app]. f_equal. apply IH2. intros ?. apply H. by right.
Qed.

End AppLemmas.

Section AppTheorems.
Import App AppSession.

(** X12.  Opening a page from a position in range drops the entries after
    the position, appends the page and moves to it: the new position is the
    last one and holds the page. *)
Theorem openUrl_drops_forward_entries st t enc :
  in_range st -> encodeURIComponent t = Ok enc ->
  exists st',
    openUrl (Some t) st = (Ok tt, st') /\
    history st' = take (Z.to_nat (pos st + 1)) (history st) ++ [Some t] /\
    pos st' = pos st + 1 /\
    pos st' = len (history st') - 1 /\
    at_index (history st') (pos st') = Some t.
Proof.
  intros Hr Henc. eexists. split; [by eapply openUrl_in_range|].
  cbn [history pos]. pose proof (in_range_len _ Hr) as Hlen.
  assert (pos st + 1
          = len (take (Z.to_nat (pos st + 1)) (history st) ++ [Some t]) - 1)
    as Hlast.
  { rewrite len_app, len_take by done. unfold len. cbn [length]. lia. }
  repeat split; [done|]. rewrite Hlast at 2. apply at_index_last.
Qed.

(** X13.  The address the frame is given is the route of the mode followed
    by the encoded page address, in proxy mode the prefix the server writes
    into rewritten links; the encoded part has no character that delimits a
    query string and decodes to the page address. *)
Theorem openUrl_frame_address st t fr :
  frame st = Some fr -> well_formed t = true ->
  exists enc st',
    openUrl (Some t) st = (Ok tt, st') /\
    frame st' = Some (mkIframe (Some (route (mode st) ++ enc)) (srcdoc fr)) /\
    route proxy = Server.proxy_path /\
    decodeURIComponent enc = Ok t /\
    forallb is_query_safe enc = true.
Proof.
  intros Hfr Hwf. destruct (decode_encode t Hwf) as (enc & Henc & Hdec).
  exists enc. eexists. unfold openUrl. cbn [ToString].
  unfold encodeURIComponent. rewrite Henc. split; [reflexivity|].
  cbn [frame]. rewrite Hfr. cbn [set_src].
  repeat split; try done; [by destruct (mode st)|by eapply encode_query_safe].
Qed.

(** X14.  Back onto a page does not move back in the history: the page is
    opened anew, so the entries after the position are dropped, the page is
    appended, the position grows by one, and Forward then does nothing. *)
Theorem goBack_appends_entry st t enc :
  0 < pos st < len (history st) ->
  at_index (history st) (pos st - 1) = Some t ->
  t <> about_snippet ->
  encodeURIComponent t = Ok enc ->
  exists st',
    goBack st = (Ok tt, st') /\
    history st' = take (Z.to_nat (pos st + 1)) (history st) ++ [Some t] /\
    pos st' = pos st + 1 /\
    goForward st' = (Ok tt, st').
Proof.
  intros Hpos Ht Hsnip Henc. unfold goBack.
  destruct (Z.gtb_spec (pos st) 0); [|lia]. unfold show_entry. rewrite Ht.
  rewrite bool_decide_eq_false_2 by congruence.
  rewrite (openUrl_in_range st (Some t) enc) by (done || (right; lia)).
  eexists. split; [reflexivity|]. cbn [history pos]. repeat split.
  unfold goForward. cbn [history pos].
  rewrite len_app, len_take by (unfold len in *; lia).
  by destruct (Z.ltb_spec (pos st + 1) (pos st + 1 + len [Some t] - 1));
    [unfold len in *; cbn [length] in *; lia|].
Qed.


(** X16.  Whatever the user does from the start, the position stays that
    of an entry of the history (or -1 while the history is empty), every
    entry is a string that can be opened, and Back and Forward do not
    throw. *)
Theorem session_position_in_range actions :
  in_range (run actions initial) /\
  (forall e, e ∈ history (run actions initial) ->
     exists s enc, e = Some s /\ encodeURIComponent s = Ok enc) /\
  (exists st', goBack (run actions initial) = (Ok tt, st')) /\
  (exists st', goForward (run actions initial) = (Ok tt, st')).
Proof.
  assert (session_invariant (run actions initial)) as Hinv.
  { apply run_invariant. split; [by left|constructor]. }
  split; [apply Hinv|]. split.
  - intros e He. apply opens_Some.
    by apply (proj1 (Forall_forall _ _) (proj2 Hinv)).
  - destruct (goBack_invariant _ Hinv) as (st1 & H1 & _).
    destruct (goForward_invariant _ Hinv) as (st2 & H2 & _). eauto.
Qed.

(** X17.  A result without a URL is shown as text: the frame's document is
    the snippet between [<pre>] and [</pre>] with every [<] replaced, so the
    snippet opens no tag of its own; a snippet without [<] is shown as it
    is, and the entry added to the history is the snippet placeholder. *)
Theorem snippet_shown_as_text st r s fr :
  truthy_opt (result_url r) = false ->
  result_snippet r = Some s -> s <> [] ->
  frame st = Some fr ->
  exists body st',
    onResultClick r st = (Ok tt, st') /\
    frame st'
    = Some (mkIframe (src fr) (Some (js "<pre>" ++ body ++ js "</pre>"))) /\
    (60 ∉ body) /\ (60 ∉ s -> body = s) /\
    at_index (history st') (pos st') = Some about_snippet.
Proof.
  intros Hurl Hsn Hs Hfr. exists (escape_lt s). eexists.
  unfold onResultClick. rewrite Hurl, Hsn. cbn [truthy_opt].
  assert (truthy s = true) as -> by by destruct s.
  split; [reflexivity|]. cbn [frame history pos ToString]. rewrite Hfr.
  destruct (escape_lt_spec s) as [H1 H2].
  repeat split; try done. apply at_index_last.
Qed.

End AppTheorems.

Section AppErrors.
Import App AppSession.

Lemma encode_Throw s e : encode s = Throw e -> e = URI_malformed.
Proof.
  remember (length s) as n eqn:Hn. revert s Hn.
  induction n as [n IH] using lt_wf_ind. intros s Hn.
  destruct s as [|c rest]; [done|]. cbn [encode].
  assert (forall (f : jsstring -> jsstring) r,
            (length r < n)%nat -> f <$> encode r = Throw e -> e = URI_malformed)
    as Hmap.
  { intros f r Hr H. destruct (encode r) as [|e'] eqn:Henc; [done|].
    injection H as <-. by eapply (IH (length r)). }
  cbn [length] in Hn.
  destruct (is_unescaped c); [apply Hmap; lia|].
  destruct (is_lead_surrogate c).
  - destruct rest as [|d rest']; [by intros [= <-]|].
    destruct (is_trail_surrogate d); [|by intros [= <-]].
    apply Hmap. cbn [length] in Hn. lia.
  - destruct (is_trail_surrogate c); [by intros [= <-]|]. apply Hmap. lia.
Qed.

(** X18.  An address with an unpaired surrogate cannot be opened:
    [openUrl] throws the URIError of [encodeURIComponent] before it touches
    the frame or the history, and so does Go with that address typed in. *)
Theorem openUrl_unpaired_surrogate st t :
  Forall is_code_unit t -> well_formed t = false ->
  openUrl (Some t) st = (Throw URI_malformed, st) /\
  perform Go (perform (SetUrl t) st).2
  = (Throw URI_malformed, (perform (SetUrl t) st).2).
Proof.
  intros Hunits Hwf.
  assert (encodeURIComponent t = Throw URI_malformed) as Henc.
  { unfold encodeURIComponent. destruct (encode t) as [enc|e] eqn:Henc.
    - by rewrite (encode_Ok_well_formed t enc) in Hwf.
    - by rewrite (encode_Throw t e). }
  assert (forall st', openUrl (Some t) st' = (Throw URI_malformed, st')) as Hopen.
  { intros st'. unfold openUrl. cbn [ToString]. by rewrite Henc. }
  split; [apply Hopen|]. cbn [perform]. unfold go, Eff.modify. cbn [snd url].
  assert (truthy t = true) as -> by by destruct t.
  apply Hopen.
Qed.

Lemma openUrl_unpaired_surrogate_witness :
  openUrl (Some [104; 55357]) initial = (Throw URI_malformed, initial) /\
  perform Go (perform (SetUrl [104; 55357]) initial).2
  = (Throw URI_malformed, (perform (SetUrl [104; 55357]) initial).2).
Proof.
  apply (openUrl_unpaired_surrogate initial [104; 55357]);
    [repeat constructor; unfold is_code_unit; lia|by vm_compute].
Defined.

End AppErrors.

(** * The endpoints and the client on the sample data *)

Section Witnesses.
Import Search SearchFailure App AppSession.

Lemma search_results_usable_witness :
  200 = 200 /\
  (exists q, Some (QString (js "  rocq ")) = Some (QString q) /\
             js "rocq" = trim q) /\
  js "rocq" <> [] /\ skip_space (js "rocq") = js "rocq" /\
  skip_space (rev (js "rocq")) = rev (js "rocq") /\
  [api_url SampleSearch.duckduckgo (js "rocq")]
  = [api_url SampleSearch.duckduckgo (js "rocq")] /\
  (length SampleSearch.found <= 30)%nat /\ Forall usable SampleSearch.found.
Proof.
  apply (search_results_usable SampleSearch.duckduckgo
           (Some (QString (js "  rocq ")))
           200 (js "rocq") SampleSearch.found
           [api_url SampleSearch.duckduckgo (js "rocq")]).
  by vm_compute.
Defined.

Lemma search_summary_first_witness :
  exists rest,
    SampleSearch.found
    = mkResult
        (or_value (field SampleSearch.answer "Heading")
           (or_value (field SampleSearch.answer "AbstractText")
              (String (js "Summary"))))
        (or_value (field SampleSearch.answer "AbstractURL") Undefined)
        (or_value (field SampleSearch.answer "AbstractText") Undefined)
      :: rest /\
    (length rest <= 29)%nat.
Proof.
  apply (search_summary_first SampleSearch.answer SampleSearch.found);
    by vm_compute.
Defined.

Lemma search_fails_on_null_topic_witness :
  exists resp,
    handle_search SampleSearch.broken (Some (QString (js "rocq")))
    = (Ok resp, [api_url SampleSearch.broken (trim (js "rocq"))]) /\
    search_status resp
    = (if collect_fails SampleSearch.broken_answer then 500 else 200).
Proof.
  apply (search_fails_on_null_topic SampleSearch.broken (js "rocq")
           (mkProviderResponse true 200 (Ok SampleSearch.broken_answer))
           SampleSearch.broken_answer);
    by vm_compute.
Defined.

Lemma openUrl_drops_forward_entries_witness :
  exists st',
    openUrl (Some (js "https://d.example/")) SampleApp.two_of_three
    = (Ok tt, st') /\
    history st'
    = take (Z.to_nat (pos SampleApp.two_of_three + 1))
        (history SampleApp.two_of_three) ++ [Some (js "https://d.example/")] /\
    pos st' = pos SampleApp.two_of_three + 1 /\
    pos st' = len (history st') - 1 /\
    at_index (history st') (pos st') = Some (js "https://d.example/").
Proof.
  apply (openUrl_drops_forward_entries SampleApp.two_of_three
           (js "https://d.example/") (js "https%3A%2F%2Fd.example%2F"));
    [right; vm_compute; by split|by vm_compute].
Defined.

Lemma openUrl_frame_address_witness :
  exists enc st',
    openUrl (Some (js "https://a.example/?q=1&r=2")) initial = (Ok tt, st') /\
    frame st'
    = Some (mkIframe (Some (route (mode initial) ++ enc)) (srcdoc (mkIframe None None))) /\
    route proxy = Server.proxy_path /\
    decodeURIComponent enc = Ok (js "https://a.example/?q=1&r=2") /\
    forallb is_query_safe enc = true.
Proof.
  apply (openUrl_frame_address initial (js "https://a.example/?q=1&r=2")
           (mkIframe None None));
    by vm_compute.
Defined.

Lemma goBack_appends_entry_witness :
  exists st',
    goBack SampleApp.three_pages = (Ok tt, st') /\
    history st'
    = take (Z.to_nat (pos SampleApp.three_pages + 1))
        (history SampleApp.three_pages) ++ [Some (js "https://b.example/")] /\
    pos st' = pos SampleApp.three_pages + 1 /\
    goForward st' = (Ok tt, st').
Proof.
  apply (goBack_appends_entry SampleApp.three_pages (js "https://b.example/")
           (js "https%3A%2F%2Fb.example%2F"));
    [vm_compute; by split|by vm_compute|by vm_compute|by vm_compute].
Defined.


Lemma snippet_shown_as_text_witness :
  exists body st',
    onResultClick SampleApp.snippet_result initial = (Ok tt, st') /\
    frame st'
    = Some (mkIframe (src (mkIframe None None))
              (Some (js "<pre>" ++ body ++ js "</pre>"))) /\
    (60 ∉ body) /\
    (60 ∉ js "if a < b then <b>bold</b>" ->
     body = js "if a < b then <b>bold</b>") /\
    at_index (history st') (pos st') = Some about_snippet.
Proof.
  apply (snippet_shown_as_text initial SampleApp.snippet_result
           (js "if a < b then <b>bold</b>") (mkIframe None None));
    by vm_compute.
Defined.

End Witnesses.
